(** * Quantum-bin-collapse: the trial engine of [quantum_collapse_poc.py]

    A shallow embedding of the Python program and the properties of its
    trial engine.

    - Python [int] is [Z] (unbounded).
    - Python [float] is IEEE-754 binary64, i.e. Rocq's primitive [float];
      general facts about it go through the [spec_float] specification
      of the Standard Library.
    - Python [str] holding the hashed text is a [string] whose characters
      are the bytes of its UTF-8 encoding, so that [.encode()] is the
      identity on it and concatenation commutes with encoding.
    - [hashlib.sha256] is SHA-256 as in FIPS 180-4, on 32-bit words kept
      in [Z] with the wrap-around written out.
    - An uncaught Python exception is the [Raise] branch of [result];
      this includes the [ValueError] of [str] on an [int] of more than
      4300 digits.
    - The process-wide generator of module [random] is an explicit
      [RandomSource] that is threaded through the calls. *)

From Stdlib Require Import ZArith List String Ascii Bool Lia Floats.
From Stdlib Require Import DecimalString Reals Lra Psatz.
Import ListNotations.

Local Open Scope Z_scope.

(* Decimal literals such as [2.58] denote the nearest binary64 value, as
   they do in Python. *)
#[local] Set Warnings "-inexact-float".

(** ** Exceptions *)

Inductive exn : Type :=
| ValueError
| ZeroDivisionError
| OverflowError.

Inductive result (A : Type) : Type :=
| Ok (a : A)
| Raise (e : exn).

Arguments Ok {A} a.
Arguments Raise {A} e.

Definition bind {A B : Type} (c : result A) (k : A -> result B) : result B :=
  match c with
  | Ok a => k a
  | Raise e => Raise e
  end.

Declare Scope py_scope.
Delimit Scope py_scope with py.
Notation "x <- c ;; k" := (bind c (fun x => k))
  (at level 61, c at next level, right associativity) : py_scope.

(** ** SHA-256 ([hashlib.sha256]) *)

Module SHA256.

Definition wrap32 (x : Z) : Z := x mod 2 ^ 32.
Definition add32 (x y : Z) : Z := wrap32 (x + y).
Definition not32 (x : Z) : Z := Z.lxor x (2 ^ 32 - 1).
Definition rotr (n x : Z) : Z :=
  Z.lor (Z.shiftr x n) (wrap32 (Z.shiftl x (32 - n))).

Definition Ch (x y z : Z) : Z := Z.lxor (Z.land x y) (Z.land (not32 x) z).
Definition Maj (x y z : Z) : Z :=
  Z.lxor (Z.lxor (Z.land x y) (Z.land x z)) (Z.land y z).
Definition Sum0 (x : Z) : Z := Z.lxor (Z.lxor (rotr 2 x) (rotr 13 x)) (rotr 22 x).
Definition Sum1 (x : Z) : Z := Z.lxor (Z.lxor (rotr 6 x) (rotr 11 x)) (rotr 25 x).
Definition sig0 (x : Z) : Z := Z.lxor (Z.lxor (rotr 7 x) (rotr 18 x)) (Z.shiftr x 3).
Definition sig1 (x : Z) : Z := Z.lxor (Z.lxor (rotr 17 x) (rotr 19 x)) (Z.shiftr x 10).

Definition K : list Z :=
  [ 0x428A2F98; 0x71374491; 0xB5C0FBCF; 0xE9B5DBA5;
    0x3956C25B; 0x59F111F1; 0x923F82A4; 0xAB1C5ED5;
    0xD807AA98; 0x12835B01; 0x243185BE; 0x550C7DC3;
    0x72BE5D74; 0x80DEB1FE; 0x9BDC06A7; 0xC19BF174;
    0xE49B69C1; 0xEFBE4786; 0x0FC19DC6; 0x240CA1CC;
    0x2DE92C6F; 0x4A7484AA; 0x5CB0A9DC; 0x76F988DA;
    0x983E5152; 0xA831C66D; 0xB00327C8; 0xBF597FC7;
    0xC6E00BF3; 0xD5A79147; 0x06CA6351; 0x14292967;
    0x27B70A85; 0x2E1B2138; 0x4D2C6DFC; 0x53380D13;
    0x650A7354; 0x766A0ABB; 0x81C2C92E; 0x92722C85;
    0xA2BFE8A1; 0xA81A664B; 0xC24B8B70; 0xC76C51A3;
    0xD192E819; 0xD6990624; 0xF40E3585; 0x106AA070;
    0x19A4C116; 0x1E376C08; 0x2748774C; 0x34B0BCB5;
    0x391C0CB3; 0x4ED8AA4A; 0x5B9CCA4F; 0x682E6FF3;
    0x748F82EE; 0x78A5636F; 0x84C87814; 0x8CC70208;
    0x90BEFFFA; 0xA4506CEB; 0xBEF9A3F7; 0xC67178F2 ].

(** The eight working variables, also the chaining value. *)
Record regs : Type := Regs
  { ra : Z; rb : Z; rc : Z; rd : Z; re : Z; rf : Z; rg : Z; rh : Z }.

Definition H0 : regs :=
  Regs 0x6A09E667 0xBB67AE85 0x3C6EF372 0xA54FF53A
       0x510E527F 0x9B05688C 0x1F83D9AB 0x5BE0CD19.

Definition step (s : regs) (k w : Z) : regs :=
  let t1 := add32 (add32 (add32 (add32 (rh s) (Sum1 (re s)))
                                (Ch (re s) (rf s) (rg s))) k) w in
  let t2 := add32 (Sum0 (ra s)) (Maj (ra s) (rb s) (rc s)) in
  Regs (add32 t1 t2) (ra s) (rb s) (rc s) (add32 (rd s) t1) (re s) (rf s) (rg s).

(** The 64 rounds of one block.  [win] is the sliding window
    [W_t .. W_(t+15)] of the message schedule. *)
Fixpoint rounds (ks win : list Z) (s : regs) : regs :=
  match ks, win with
  | k :: ks', w :: rest =>
      let w16 := add32 (add32 (add32 (sig1 (nth 13 rest 0)) (nth 8 rest 0))
                              (sig0 (nth 0 rest 0))) w in
      rounds ks' (rest ++ [w16]) (step s k w)
  | _, _ => s
  end.

Definition feed (h s : regs) : regs :=
  Regs (add32 (ra h) (ra s)) (add32 (rb h) (rb s))
       (add32 (rc h) (rc s)) (add32 (rd h) (rd s))
       (add32 (re h) (re s)) (add32 (rf h) (rf s))
       (add32 (rg h) (rg s)) (add32 (rh h) (rh s)).

Definition compress (h : regs) (block : list Z) : regs :=
  feed h (rounds K block h).

Fixpoint blocks (n : nat) (ws : list Z) (h : regs) : regs :=
  match n with
  | O => h
  | S n' => blocks n' (skipn 16 ws) (compress h (firstn 16 ws))
  end.

(** Big-endian bytes of [x], [n] of them. *)
Fixpoint be_bytes (n : nat) (x : Z) : list Z :=
  match n with
  | O => []
  | S n' => (Z.shiftr x (8 * Z.of_nat n')) mod 256 :: be_bytes n' x
  end.

Definition pad (msg : list Z) : list Z :=
  let len := Z.of_nat (List.length msg) in
  msg ++ [0x80] ++ repeat 0 (Z.to_nat ((55 - len) mod 64)) ++ be_bytes 8 (8 * len).

Fixpoint words (bs : list Z) : list Z :=
  match bs with
  | b0 :: b1 :: b2 :: b3 :: rest =>
      (((b0 * 256 + b1) * 256 + b2) * 256 + b3) :: words rest
  | _ => []
  end.

Definition byte_val (b : Byte.byte) : Z := Z.of_N (Byte.to_N b).

Definition digest (data : list Byte.byte) : regs :=
  let ws := words (pad (map byte_val data)) in
  blocks (List.length ws / 16) ws H0.

Definition digest_words (d : regs) : list Z :=
  [ra d; rb d; rc d; rd d; re d; rf d; rg d; rh d].

(** The digest read as one 256-bit big-endian integer. *)
Definition digest_int (d : regs) : Z :=
  fold_left (fun acc w => acc * 2 ^ 32 + w) (digest_words d) 0.

Definition hex_digit (n : Z) : ascii :=
  if n <? 10 then ascii_of_N (Z.to_N (48 + n)) else ascii_of_N (Z.to_N (87 + n)).

Fixpoint hex_of (n : nat) (x : Z) : string :=
  match n with
  | O => EmptyString
  | S n' => String (hex_digit ((Z.shiftr x (4 * Z.of_nat n')) mod 16)) (hex_of n' x)
  end.

(** [hash_obj.hexdigest()]: 64 lower-case hexadecimal digits. *)
Definition hexdigest (d : regs) : string :=
  fold_right (fun w s => (hex_of 8 w ++ s)%string) EmptyString (digest_words d).

End SHA256.

(** [hashlib.sha256(text.encode())] *)
Definition sha256 (text : string) : SHA256.regs :=
  SHA256.digest (list_byte_of_string text).

(** ** Python built-ins used by the engine *)

(** CPython's default limit on the number of digits of an [int] that is
    converted to a decimal string ([sys.get_int_max_str_digits()]). *)
Definition int_max_str_digits : Z := 4300.

(** The least magnitude that [str] refuses, [10 ^ 4300], evaluated
    once. *)
Definition str_refused_from : Z := Eval vm_compute in 10 ^ int_max_str_digits.

(** The decimal digits of [n], with a leading minus sign for a negative
    number. *)
Definition decimal (n : Z) : string := NilZero.string_of_int (Z.to_int n).

(** [str(n)] for an [int]: its decimal representation; an [int] of more
    than [int_max_str_digits] digits, the sign not counted, raises
    [ValueError]. *)
Definition str_int (n : Z) : result string :=
  if str_refused_from <=? Z.abs n then Raise ValueError else Ok (decimal n).

(** The list that a generator expression yields, built from the left
    until an element raises. *)
Fixpoint map_result {A B : Type} (f : A -> result B) (l : list A)
  : result (list B) :=
  match l with
  | [] => Ok []
  | x :: l' => (y <- f x ;; ys <- map_result f l' ;; Ok (y :: ys))%py
  end.

(** [sep.join(parts)] with the empty separator. *)
Definition join (parts : list string) : string := String.concat EmptyString parts.

Definition hex_value (c : ascii) : option Z :=
  let n := Z.of_N (N_of_ascii c) in
  if (48 <=? n) && (n <=? 57) then Some (n - 48)
  else if (97 <=? n) && (n <=? 102) then Some (n - 87)
  else if (65 <=? n) && (n <=? 70) then Some (n - 55)
  else None.

Fixpoint int_base16_from (acc : Z) (s : string) : result Z :=
  match s with
  | EmptyString => Ok acc
  | String c s' =>
      match hex_value c with
      | Some d => int_base16_from (acc * 16 + d) s'
      | None => Raise ValueError
      end
  end.

(** [int(s, 16)] on a string of hexadecimal digits; any other character,
    and the empty string, raise [ValueError].  (Python also accepts a
    sign, a [0x] prefix, underscores and surrounding blanks, none of
    which [hexdigest] produces.) *)
Definition int_base16 (s : string) : result Z :=
  match s with
  | EmptyString => Raise ValueError
  | _ => int_base16_from 0 s
  end.

(** [l[start:]]: a negative [start] counts from the end, and the bounds
    are clamped to the list. *)
Definition slice_from {A : Type} (start : Z) (l : list A) : list A :=
  let n := Z.of_nat (List.length l) in
  let lo := if start <? 0 then Z.max (n + start) 0 else Z.min start n in
  skipn (Z.to_nat lo) l.

(** [sum(xs)] over [int]s. *)
Definition sum (xs : list Z) : Z := fold_left Z.add xs 0.

(** [range(lo, hi)] *)
Definition range (lo hi : Z) : list Z :=
  map (fun k => lo + Z.of_nat k) (seq 0 (Z.to_nat (hi - lo))).

(** *** Floating point

    An [int] enters binary64 arithmetic exactly, as a [spec_float] with
    exponent 0; the operation is then rounded once, to nearest-even,
    which is what CPython's [long_true_divide] and [PyLong_AsDouble]
    do.  A result out of range raises [OverflowError]. *)

Definition SF_of_int (n : Z) : spec_float :=
  match n with
  | Z0 => S754_zero false
  | Zpos p => S754_finite false p 0
  | Zneg p => S754_finite true p 0
  end.

Definition float_of_SF (x : spec_float) : result float :=
  match x with
  | S754_infinity _ => Raise OverflowError
  | _ => Ok (SF2Prim x)
  end.

(** [a / b] for two [int]s. *)
Definition int_truediv (a b : Z) : result float :=
  if b =? 0 then Raise ZeroDivisionError
  else float_of_SF (SFdiv prec emax (SF_of_int a) (SF_of_int b)).

(** [float(n)], the conversion applied to an [int] operand that meets a
    [float]. *)
Definition float_of_int (n : Z) : result float :=
  float_of_SF (binary_normalize prec emax n 0 false).

(** [x / y] for two [float]s. *)
Definition float_truediv (x y : float) : result float :=
  if (y =? 0)%float then Raise ZeroDivisionError else Ok (x / y)%float.

(** [math.sqrt(x)] *)
Definition math_sqrt (x : float) : result float :=
  if (x <? 0)%float then Raise ValueError else Ok (PrimFloat.sqrt x).

(** ** The random source

    [random.seed()] re-seeds the process-wide generator from operating
    system entropy on every call, so the value that the following
    [random.random()] returns is fixed by that entropy alone:
    [entropy rng k] is the value returned at the [k]-th call and
    [consumed] counts the calls made so far. *)
Record RandomSource : Type := mkRandomSource
  { entropy : nat -> float;
    consumed : nat }.

(** ** The trial engine: class [QuantumCollapse] *)

(** One entry of [self.history]: the dict with keys ['flip'],
    ['prediction'], ['actual'] and ['correct']. *)
Record Trial : Type := mkTrial
  { flip : Z;
    prediction : Z;
    actual : Z;
    correct : bool }.

Record QuantumCollapse : Type := mkQuantumCollapse
  { seed : string;
    history : list Trial }.

Definition default_seed : string := "ejhollenhub2026".

(** [__init__] *)
Definition init (seed : string) : QuantumCollapse :=
  {| seed := seed; history := [] |}.

Definition pure_random_flip (rng : RandomSource) : Z * RandomSource :=
  let u := entropy rng (consumed rng) in
  (if (u <? 0.5)%float then 1 else 0,
   {| entropy := entropy rng; consumed := S (consumed rng) |}).

Definition history_str (self : QuantumCollapse) : result string :=
  (parts <- map_result (fun h => str_int (actual h))
                       (slice_from (-10) (history self)) ;;
   Ok (join parts))%py.

Definition quantum_state (self : QuantumCollapse) (flip_num : Z) : result string :=
  (history_str <- history_str self ;;
   flip_str <- str_int flip_num ;;
   Ok (seed self ++ flip_str ++ history_str)%string)%py.

Definition quantum_num (self : QuantumCollapse) (flip_num : Z) : result Z :=
  (quantum_state <- quantum_state self flip_num ;;
   n <- int_base16 (SHA256.hexdigest (sha256 quantum_state)) ;;
   Ok (n mod 100))%py.

Definition biphoton_cascade_prediction
    (self : QuantumCollapse) (flip_num : Z) : result Z :=
  (q <- quantum_num self flip_num ;;
   Ok (if q <? 85 then 1 else 0))%py.

Definition append (self : QuantumCollapse) (t : Trial) : QuantumCollapse :=
  {| seed := seed self; history := history self ++ [t] |}.

Definition run_trial (self : QuantumCollapse) (flip_num : Z) (rng : RandomSource)
  : result ((Z * Z * bool) * QuantumCollapse * RandomSource) :=
  (prediction <- biphoton_cascade_prediction self flip_num ;;
   let '(actual, rng') := pure_random_flip rng in
   let correct := prediction =? actual in
   let self' := append self {| flip := flip_num;
                               prediction := prediction;
                               actual := actual;
                               correct := correct |} in
   Ok ((prediction, actual, correct), self', rng'))%py.

Definition get_accuracy (self : QuantumCollapse) : result float :=
  match history self with
  | [] => Ok 50%float
  | _ =>
      let correct := sum (map (fun _ => 1) (filter correct (history self))) in
      (q <- int_truediv correct (Z.of_nat (List.length (history self))) ;;
       Ok (q * 100)%float)%py
  end.

(** ** The driver: [run_quantum_poc] *)

(** What the driver prints, without the layout of the text. *)
Inductive verdict : Type :=
| CollapseConfirmed | StrongEffect | WeakSignal | MarginalEffect | NoEffect.

Inductive significance : Type :=
| HighlySignificant | Significant | MarginallySignificant | NotSignificant.

Record ProgressLine : Type := mkProgressLine
  { line_trial : Z;
    line_correct : bool;
    line_prediction_heads : bool;
    line_actual_heads : bool;
    line_accuracy : float }.

(** The variables that live across the iterations of the loop. *)
Record LoopState : Type := mkLoopState
  { qc : QuantumCollapse;
    rng : RandomSource;
    printed : list ProgressLine }.

Record Report : Type := mkReport
  { final_state : LoopState;
    final_acc : float;
    shift : float;
    outcome : verdict;
    n : Z;
    se : float;
    z_score : float;
    level : significance }.

Fixpoint for_each {S : Type} (body : Z -> S -> result S) (l : list Z) (s : S)
  : result S :=
  match l with
  | [] => Ok s
  | i :: l' => (s' <- body i s ;; for_each body l' s')%py
  end.

Definition loop_body (i : Z) (s : LoopState) : result LoopState :=
  (r <- run_trial (qc s) i (rng s) ;;
   let '((prediction, actual, correct), qc', rng') := r in
   if (i mod 10 =? 0) || (i <=? 5) then
     acc <- get_accuracy qc' ;;
     Ok {| qc := qc'; rng := rng';
           printed := printed s ++ [ {| line_trial := i;
                                        line_correct := correct;
                                        line_prediction_heads := prediction =? 1;
                                        line_actual_heads := actual =? 1;
                                        line_accuracy := acc |} ] |}
   else
     Ok {| qc := qc'; rng := rng'; printed := printed s |})%py.

Definition classify_accuracy (final_acc : float) : verdict :=
  if (85 <=? final_acc)%float then CollapseConfirmed
  else if (70 <=? final_acc)%float then StrongEffect
  else if (60 <=? final_acc)%float then WeakSignal
  else if (55 <=? final_acc)%float then MarginalEffect
  else NoEffect.

Definition classify_z (z_score : float) : significance :=
  if (2.58 <? PrimFloat.abs z_score)%float then HighlySignificant
  else if (1.96 <? PrimFloat.abs z_score)%float then Significant
  else if (1.65 <? PrimFloat.abs z_score)%float then MarginallySignificant
  else NotSignificant.

Definition run_quantum_poc (rng0 : RandomSource) : result Report :=
  (let qc0 := init default_seed in
   s <- for_each loop_body (range 1 101)
          {| qc := qc0; rng := rng0; printed := [] |} ;;
   final_acc <- get_accuracy (qc s) ;;
   let shift := (final_acc - 50)%float in
   let n := Z.of_nat (List.length (history (qc s))) in
   let expected := 0.5%float in
   observed <- float_truediv final_acc 100 ;;
   nf <- float_of_int n ;;
   v <- float_truediv (expected * (1 - expected))%float nf ;;
   se <- math_sqrt v ;;
   z_score <- float_truediv (observed - expected)%float se ;;
   Ok {| final_state := s;
         final_acc := final_acc;
         shift := shift;
         outcome := classify_accuracy final_acc;
         n := n;
         se := se;
         z_score := z_score;
         level := classify_z z_score |})%py.

(** ** Definitions used to state the properties *)

(** A source of outcomes that alternates heads and tails. *)
Definition alternating : RandomSource :=
  {| entropy := fun k => if Nat.even k then 0.25%float else 0.75%float;
     consumed := 0 |}.

(** The last [k] entries of a list, or all of it when it is shorter. *)
Definition last_at_most {A : Type} (k : nat) (l : list A) : list A :=
  skipn (List.length l - k) l.

(** The text that is hashed for trial [i]: the seed, the decimal
    representation of [i] and the [actual] bits of the last at most 10
    records. *)
Definition hashed_text (seed : string) (i : Z) (h : list Trial) : string :=
  (seed ++ decimal i ++ join (map (fun t => decimal (actual t)) (last_at_most 10 h)))%string.

(** The digest of that text, read as one large integer, modulo 100. *)
Definition digest_mod_100 (seed : string) (i : Z) (h : list Trial) : Z :=
  SHA256.digest_int (sha256 (hashed_text seed i h)) mod 100.

(** The number of records whose [correct] field is true. *)
Definition count_correct (h : list Trial) : Z :=
  Z.of_nat (List.length (filter correct h)).

Definition is_bit (b : Z) : Prop := b = 0 \/ b = 1.

(** An [int] that [str] converts: it has at most 4300 decimal digits. *)
Definition printable (n : Z) : Prop := Z.abs n < 10 ^ int_max_str_digits.

(** The [actual] fields that the prediction reads, those of the last at
    most 10 records, are all converted by [str]. *)
Definition window_printable (h : list Trial) : Prop :=
  Forall (fun t => printable (actual t)) (last_at_most 10 h).

(** Every [actual] field of the history is a bit, as in a history that
    the engine wrote. *)
Definition bits_history (h : list Trial) : Prop :=
  Forall (fun t => is_bit (actual t)) h.

Definition word32 (x : Z) : Prop := 0 <= x < 2 ^ 32.

Definition regs_ok (d : SHA256.regs) : Prop := Forall word32 (SHA256.digest_words d).

(** *** The real value of a binary64 number

    [F2R m e] is the real number [m * 2^e]. *)

Definition bpow (e : Z) : R := powerRZ 2 e.
Definition F2R (m e : Z) : R := (IZR m * bpow e)%R.

(** A positive mantissa is canonical at its exponent. *)
Definition canonical (m e : Z) : Prop := fexp prec emax (Zdigits2 m + e) = e.

(** The location is at or above the midpoint: rounding to nearest may
    go up. *)
Definition loc_up (l : location) : bool :=
  match l with
  | loc_Inexact Eq | loc_Inexact Gt => true
  | _ => false
  end.

(** A binary64 number in the unit interval: [+0], or canonical, positive
    and at most one. *)
Definition unit_SF (x : spec_float) : Prop :=
  x = S754_zero false \/
  exists m e, x = S754_finite false m e /\ canonical (Zpos m) e /\ e <= 971 /\
              (F2R (Zpos m) e <= 1)%R.

(** [y] is [x] shifted right by [k] places. *)
Definition shr_steps (k : Z) (x y : shr_record) : Prop :=
  0 <= shr_m y /\ shr_m y = shr_m x / 2 ^ k /\
  (shr_r y = true -> shr_m y * 2 ^ k < shr_m x).

(** ** Definitions used to state further properties *)

(** [c / total * 100]: what [get_accuracy] computes from the number of
    correct records and the number of records. *)
Definition accuracy_of (c total : Z) : result float :=
  (q <- int_truediv c total ;; Ok (q * 100)%float)%py.

(** The number of records whose prediction and outcome agree. *)
Definition agreements (h : list Trial) : Z :=
  Z.of_nat (List.length (filter (fun t => prediction t =? actual t) h)).

(** A record as [run_trial] writes it: two bits and the flag that says
    whether they are equal. *)
Definition record_ok (t : Trial) : bool :=
  ((prediction t =? 0) || (prediction t =? 1)) &&
  ((actual t =? 0) || (actual t =? 1)) &&
  Bool.eqb (correct t) (prediction t =? actual t).

(** A history that the engine with seed [sd] can have written: every
    record is well formed and carries the prediction that the engine
    makes from the records before it. *)
Inductive Replayed (sd : string) : list Trial -> Prop :=
| Replayed_nil : Replayed sd []
| Replayed_snoc (h : list Trial) (t : Trial) :
    Replayed sd h ->
    biphoton_cascade_prediction {| seed := sd; history := h |} (flip t)
    = Ok (prediction t) ->
    record_ok t = true ->
    Replayed sd (h ++ [t]).

(** The condition under which the driver prints a progress line. *)
Definition progress_due (i : Z) : bool := (i mod 10 =? 0) || (i <=? 5).

(** The two sources give the same heads and tails on their next [k]
    draws. *)
Definition same_flips (rng1 rng2 : RandomSource) (k : nat) : Prop :=
  forall j : nat, (j < k)%nat ->
    (entropy rng1 (consumed rng1 + j) <? 0.5)%float
    = (entropy rng2 (consumed rng2 + j) <? 0.5)%float.

(** A progress line of the driver against the history [h]: it reports a
    record of [h] and the accuracy of the history up to that record. *)
Definition line_reports (sd : string) (h : list Trial) (ln : ProgressLine) : Prop :=
  exists (before after : list Trial) (t : Trial),
    h = before ++ t :: after /\
    line_trial ln = flip t /\
    line_correct ln = correct t /\
    line_prediction_heads ln = (prediction t =? 1) /\
    line_actual_heads ln = (actual t =? 1) /\
    get_accuracy {| seed := sd; history := before ++ [t] |} = Ok (line_accuracy ln).

(** The verdict and the significance level as functions of the number of
    correct trials out of 100. *)
Definition verdict_of_count (k : Z) : verdict :=
  if 85 <=? k then CollapseConfirmed
  else if 70 <=? k then StrongEffect
  else if 60 <=? k then WeakSignal
  else if 55 <=? k then MarginalEffect
  else NoEffect.

Definition level_of_count (k : Z) : significance :=
  let d := Z.abs (k - 50) in
  if 13 <=? d then HighlySignificant
  else if 10 <=? d then Significant
  else if 9 <=? d then MarginallySignificant
  else NotSignificant.

Definition verdict_eqb (a b : verdict) : bool :=
  match a, b with
  | CollapseConfirmed, CollapseConfirmed | StrongEffect, StrongEffect
  | WeakSignal, WeakSignal | MarginalEffect, MarginalEffect
  | NoEffect, NoEffect => true
  | _, _ => false
  end.

Definition significance_eqb (a b : significance) : bool :=
  match a, b with
  | HighlySignificant, HighlySignificant | Significant, Significant
  | MarginallySignificant, MarginallySignificant
  | NotSignificant, NotSignificant => true
  | _, _ => false
  end.

(** The z-score that the driver derives from the final accuracy of 100
    trials. *)
Definition z_of_accuracy (a : float) : float :=
  ((a / 100 - 0.5) / PrimFloat.sqrt (0.5 * (1 - 0.5) / 100))%float.

(** The check of one row of the table of outcomes: with [k] correct
    trials out of 100 the accuracy is computed, the verdict and the
    level are those of the table, and the shift and the z-score are in
    range. *)
Definition report_check (k : Z) : bool :=
  match accuracy_of k 100 with
  | Ok a =>
      verdict_eqb (classify_accuracy a) (verdict_of_count k) &&
      significance_eqb (classify_z (z_of_accuracy a)) (level_of_count k) &&
      ((-50 <=? a - 50) && (a - 50 <=? 50))%float &&
      ((-10 <=? z_of_accuracy a) && (z_of_accuracy a <=? 10))%float
  | Raise _ => false
  end.

(** A source whose every outcome is tails. *)
Definition always_tails : RandomSource :=
  {| entropy := fun _ => 0.75%float; consumed := 0 |}.

(** A source with the heads and tails of [alternating] but other draws. *)
Definition alternating' : RandomSource :=
  {| entropy := fun k => if Nat.even k then 0.875%float else 0.125%float;
     consumed := 7 |}.

(** * Properties *)

(** ** SHA-256 on the test vectors of FIPS 180-4 *)

Example sha256_empty :
  SHA256.hexdigest (sha256 EmptyString)
  = "e3b0c44298fc1c149afbf4c8996fb92427ae41e4649b934ca495991b7852b855"%string.
Proof. vm_compute. reflexivity. Qed.

Example sha256_abc :
  SHA256.hexdigest (sha256 "abc")
  = "ba7816bf8f01cfea414140de5dae2223b00361a396177a9cb410ff61f20015ad"%string.
Proof. vm_compute. reflexivity. Qed.

Example sha256_two_blocks :
  SHA256.hexdigest
    (sha256 "abcdbcdecdefdefgefghfghighijhijkijkljklmklmnlmnomnopnopq")
  = "248d6a61d20638b8e5c026930c3e6039a33ce45964ff2167f6ecedd419db06c1"%string.
Proof. vm_compute. reflexivity. Qed.

(** ** Binary64 arithmetic *)

Lemma bpow_pos e : (0 < bpow e)%R.
Proof. apply powerRZ_lt. lra. Qed.

Lemma bpow_add a b : bpow (a + b) = (bpow a * bpow b)%R.
Proof. apply powerRZ_add. lra. Qed.

Lemma bpow_IZR k : 0 <= k -> bpow k = IZR (2 ^ k).
Proof.
  intros Hk. unfold bpow.
  rewrite <- (Z2Nat.id k Hk) at 1.
  rewrite <- pow_powerRZ, pow_IZR, Z2Nat.id by lia. reflexivity.
Qed.

Lemma bpow_le a b : a <= b -> (bpow a <= bpow b)%R.
Proof.
  intros Hab. replace b with (a + (b - a)) by lia.
  rewrite bpow_add, (bpow_IZR (b - a)) by lia.
  assert (1 <= 2 ^ (b - a)) by (apply Z.lt_pred_le, Z.pow_pos_nonneg; lia).
  apply IZR_le in H. pose proof (bpow_pos a). nra.
Qed.

Lemma F2R_shift m e k : 0 <= k -> F2R (m * 2 ^ k) e = F2R m (e + k).
Proof.
  intros Hk. unfold F2R.
  rewrite mult_IZR, (Z.add_comm e k), bpow_add, <- bpow_IZR by lia. ring.
Qed.

Lemma F2R_le m1 m2 e : m1 <= m2 -> (F2R m1 e <= F2R m2 e)%R.
Proof. intros H. apply IZR_le in H. pose proof (bpow_pos e). unfold F2R. nra. Qed.

Lemma F2R_lt m1 m2 e : m1 < m2 -> (F2R m1 e < F2R m2 e)%R.
Proof. intros H. apply IZR_lt in H. pose proof (bpow_pos e). unfold F2R. nra. Qed.

Lemma F2R_le_inv m1 m2 e : (F2R m1 e <= F2R m2 e)%R -> m1 <= m2.
Proof.
  intros H. apply le_IZR. pose proof (bpow_pos e). unfold F2R in H. nra.
Qed.

Lemma F2R_lt_inv m1 m2 e : (F2R m1 e < F2R m2 e)%R -> m1 < m2.
Proof.
  intros H. apply lt_IZR. pose proof (bpow_pos e). unfold F2R in H. nra.
Qed.

(** Number of binary digits. *)
Lemma digits2_pos_size p : digits2_pos p = Pos.size p.
Proof. induction p; simpl; congruence. Qed.

Lemma Zdigits2_log2 m : 0 < m -> Zdigits2 m = Z.log2 m + 1.
Proof.
  destruct m as [|p|p]; try lia. intros _. simpl.
  rewrite digits2_pos_size. destruct p; simpl; lia.
Qed.

Lemma Zdigits2_bounds m :
  0 < m -> 2 ^ (Zdigits2 m - 1) <= m < 2 ^ Zdigits2 m.
Proof.
  intros Hm. rewrite Zdigits2_log2 by assumption.
  replace (Z.log2 m + 1 - 1) with (Z.log2 m) by lia.
  apply Z.log2_spec. assumption.
Qed.

Lemma Zdigits2_nonneg m : 0 <= Zdigits2 m.
Proof. destruct m; simpl; lia. Qed.

Lemma Zdigits2_mono a b : 0 <= a <= b -> Zdigits2 a <= Zdigits2 b.
Proof.
  intros [Ha Hab]. destruct (Z.eq_dec a 0) as [->|Hne].
  - apply Zdigits2_nonneg.
  - rewrite !Zdigits2_log2 by lia. pose proof (Z.log2_le_mono a b Hab). lia.
Qed.

Lemma Zdigits2_shiftr m k :
  0 <= k -> 0 < m / 2 ^ k -> Zdigits2 (m / 2 ^ k) = Zdigits2 m - k.
Proof.
  intros Hk Hq.
  assert (0 < m).
  { destruct (Z_lt_le_dec 0 m); [assumption|].
    assert (m / 2 ^ k <= 0) by (apply Z.div_le_upper_bound; [apply Z.pow_pos_nonneg|]; lia). lia. }
  rewrite !Zdigits2_log2 by assumption.
  rewrite <- Z.shiftr_div_pow2, Z.log2_shiftr by lia.
  rewrite <- Z.shiftr_div_pow2 in Hq by lia.
  assert (0 < Z.log2 (Z.shiftr m k) \/ Z.shiftr m k = 1).
  { destruct (Z.eq_dec (Z.shiftr m k) 1); [now right|left]. apply Z.log2_pos. lia. }
  destruct H0 as [H0|H0].
  - rewrite Z.log2_shiftr in H0 by lia. lia.
  - assert (Z.log2 (Z.shiftr m k) = 0) by (rewrite H0; reflexivity).
    rewrite Z.log2_shiftr in H1 by lia.
    rewrite Z.shiftr_div_pow2 in H0 by lia.
    assert (2 ^ k <= m).
    { assert (Hp : 0 < 2 ^ k) by (apply Z.pow_pos_nonneg; lia).
      pose proof (Z.mul_div_le m (2 ^ k) Hp). nia. }
    assert (k <= Z.log2 m).
    { apply Z.log2_le_pow2; lia. }
    lia.
Qed.

Lemma Zdigits2_le m k : 0 <= k -> 0 <= m < 2 ^ k -> Zdigits2 m <= k.
Proof.
  intros Hk [H0 Hlt]. destruct (Z.eq_dec m 0) as [->|Hne]; [simpl; lia|].
  rewrite Zdigits2_log2 by lia.
  assert (Z.log2 m < k) by (apply Z.log2_lt_pow2; lia). lia.
Qed.


(** The exponent function of binary64. *)
Lemma fexp_eq e : fexp prec emax e = Z.max (e - 53) (-1074).
Proof. reflexivity. Qed.

Lemma fexp_mono a b : a <= b -> fexp prec emax a <= fexp prec emax b.
Proof. rewrite !fexp_eq. lia. Qed.

Lemma shr_steps_one x : 0 <= shr_m x -> shr_steps 1 x (shr_1 x).
Proof.
  destruct x as [m r s]. unfold shr_steps. change (2 ^ 1) with 2.
  destruct m as [|[p|p|]|p]; cbn [shr_1 shr_m shr_r]; intros Hm.
  - repeat split; try lia; discriminate.
  - repeat split; try lia.
    rewrite Pos2Z.inj_xI. apply Z.div_unique with (r := 1); lia.
  - repeat split; try lia; try discriminate.
    rewrite Pos2Z.inj_xO. apply Z.div_unique with (r := 0); lia.
  - repeat split; try lia.
  - lia.
Qed.

Lemma shr_steps_trans j k x y z :
  0 <= j -> 0 <= k -> shr_steps j x y -> shr_steps k y z -> shr_steps (j + k) x z.
Proof.
  intros Hj Hk (Hy & Ey & Ry) (Hz & Ez & Rz).
  assert (0 < 2 ^ j) by (apply Z.pow_pos_nonneg; lia).
  assert (0 < 2 ^ k) by (apply Z.pow_pos_nonneg; lia).
  repeat split; [assumption| |].
  - rewrite Ez, Ey, Z.pow_add_r, Z.div_div by lia. reflexivity.
  - intros Hr. specialize (Rz Hr).
    rewrite Z.pow_add_r by lia.
    assert (shr_m y * 2 ^ j <= shr_m x).
    { rewrite Ey, Z.mul_comm. apply Z.mul_div_le. assumption. }
    nia.
Qed.

Lemma shr_steps_iter p : forall x,
  0 <= shr_m x -> shr_steps (Zpos p) x (SpecFloat.iter_pos shr_1 p x).
Proof.
  induction p as [p IH|p IH|]; intros x Hx; simpl.
  - pose proof (shr_steps_one x Hx) as H1.
    pose proof (IH _ (proj1 H1)) as H2.
    pose proof (IH _ (proj1 H2)) as H3.
    replace (Zpos p~1) with (1 + (Zpos p + Zpos p)) by lia.
    eapply shr_steps_trans; [lia|lia|exact H1|].
    eapply shr_steps_trans; [lia|lia|exact H2|exact H3].
  - pose proof (IH _ Hx) as H2.
    pose proof (IH _ (proj1 H2)) as H3.
    replace (Zpos p~0) with (Zpos p + Zpos p) by lia.
    eapply shr_steps_trans; [lia|lia|exact H2|exact H3].
  - apply shr_steps_one. assumption.
Qed.

(** [shr] either leaves the record alone or shifts it by [n > 0]. *)
Lemma shr_spec x e n :
  0 <= shr_m x -> 0 <= n ->
  exists y, shr x e n = (y, e + n) /\
            (n = 0 -> y = x) /\ (0 < n -> shr_steps n x y).
Proof.
  intros Hx Hn. destruct n as [|p|p]; try lia.
  - exists x. simpl. rewrite Z.add_0_r. repeat split; auto; lia.
  - exists (SpecFloat.iter_pos shr_1 p x). split; [reflexivity|]. split.
    + intros H. discriminate H.
    + intros _. apply shr_steps_iter. assumption.
Qed.

Lemma shr_record_of_loc_m m l : shr_m (shr_record_of_loc m l) = m.
Proof. destruct l as [|[| |]]; reflexivity. Qed.

Lemma shr_record_of_loc_r m l : shr_r (shr_record_of_loc m l) = loc_up l.
Proof. destruct l as [|[| |]]; reflexivity. Qed.

Lemma shr_fexp_spec m e l :
  0 <= m -> e <= fexp prec emax (Zdigits2 m + e) ->
  exists y, let e' := fexp prec emax (Zdigits2 m + e) in
    shr_fexp prec emax m e l = (y, e') /\
    0 <= shr_m y /\
    (F2R (shr_m y) e' <= F2R m e)%R /\
    (shr_r y = true ->
     (shr_m y = m /\ e' = e /\ loc_up l = true) \/ (F2R (shr_m y) e' < F2R m e)%R) /\
    (0 < shr_m y -> canonical (shr_m y) e') /\
    (shr_m y = 0 -> e' = -1074).
Proof.
  intros Hm He. unfold shr_fexp.
  set (e' := fexp prec emax (Zdigits2 m + e)) in *.
  destruct (shr_spec (shr_record_of_loc m l) e (e' - e)) as (y & Hy & H0 & Hpos).
  { rewrite shr_record_of_loc_m. assumption. }
  { lia. }
  exists y. cbv zeta. replace (e + (e' - e)) with e' in Hy by lia.
  split; [exact Hy|].
  destruct (Z.eq_dec e' e) as [Heq|Hne].
  - rewrite (H0 ltac:(lia)), shr_record_of_loc_m, shr_record_of_loc_r.
    rewrite Heq. repeat split; try assumption; try lra.
    + intros Hr. left. auto.
    + intros _. unfold canonical. fold e'. assumption.
    + intros ->. subst e'. rewrite fexp_eq in *. simpl Zdigits2 in *. lia.
  - destruct (Hpos ltac:(lia)) as (Hy0 & Hym & Hyr).
    rewrite shr_record_of_loc_m in Hym, Hyr.
    assert (Hp : 0 < 2 ^ (e' - e)) by (apply Z.pow_pos_nonneg; lia).
    assert (Hle : shr_m y * 2 ^ (e' - e) <= m).
    { rewrite Hym, Z.mul_comm. apply Z.mul_div_le. assumption. }
    assert (Hsh : F2R (shr_m y) e' = F2R (shr_m y * 2 ^ (e' - e)) e).
    { rewrite F2R_shift by lia. f_equal. lia. }
    repeat split; try assumption.
    + rewrite Hsh. apply F2R_le. assumption.
    + intros Hr. right. rewrite Hsh. apply F2R_lt. auto.
    + intros Hq. unfold canonical. rewrite Hym in Hq |- *.
      rewrite Zdigits2_shiftr by lia.
      replace (Zdigits2 m - (e' - e) + e') with (Zdigits2 m + e) by lia.
      reflexivity.
    + intros Hz. rewrite Hym in Hz.
      assert (m < 2 ^ (e' - e)).
      { destruct (Z_lt_le_dec m (2 ^ (e' - e))); [assumption|].
        assert (1 <= m / 2 ^ (e' - e)) by (apply Z.div_le_lower_bound; lia). lia. }
      assert (Zdigits2 m <= e' - e) by (apply Zdigits2_le; lia).
      subst e'. rewrite fexp_eq in *. lia.
Qed.

Lemma round_nearest_even_spec y :
  let m := round_nearest_even (shr_m y) (loc_of_shr_record y) in
  m = shr_m y \/ (m = shr_m y + 1 /\ shr_r y = true).
Proof.
  destruct y as [m [|] [|]]; simpl; try (left; reflexivity).
  - right. split; reflexivity.
  - destruct (Z.even m); [left|right]; auto.
Qed.

(** Between two canonical numbers the larger exponent decides. *)
Lemma canonical_exp_lt m e mB eB :
  0 < m -> 0 < mB -> canonical m e -> canonical mB eB ->
  eB < e -> (F2R mB eB < F2R m e)%R.
Proof.
  unfold canonical. rewrite !fexp_eq. intros Hm HmB Hc HcB Hlt.
  assert (Zdigits2 m = 53) by lia.
  assert (Zdigits2 mB <= 53) by lia.
  pose proof (Zdigits2_bounds m Hm) as [Hlo _].
  pose proof (Zdigits2_bounds mB HmB) as [_ Hhi].
  replace (Zdigits2 m - 1) with 52 in Hlo by lia.
  assert (mB < 2 ^ 53).
  { eapply Z.lt_le_trans; [exact Hhi|]. apply Z.pow_le_mono_r; lia. }
  apply Rlt_le_trans with (F2R (2 ^ 53) eB).
  { apply F2R_lt. assumption. }
  apply Rle_trans with (F2R (2 ^ 52 * 2 ^ (e - eB)) eB).
  { apply F2R_le. rewrite <- Z.pow_add_r by lia. apply Z.pow_le_mono_r; lia. }
  rewrite F2R_shift by lia. replace (eB + (e - eB)) with e by lia.
  apply F2R_le. assumption.
Qed.

Lemma canonical_order m e mB eB :
  0 < m -> 0 < mB -> canonical m e -> canonical mB eB ->
  (F2R m e <= F2R mB eB)%R -> e < eB \/ (e = eB /\ m <= mB).
Proof.
  intros Hm HmB Hc HcB Hle.
  destruct (Z_lt_le_dec e eB) as [|Hge]; [now left|right].
  destruct (Z.eq_dec e eB) as [->|Hne].
  - split; [reflexivity|]. eapply F2R_le_inv. eassumption.
  - pose proof (canonical_exp_lt m e mB eB Hm HmB Hc HcB ltac:(lia)). lra.
Qed.

(** *** Rounding below a representable bound

    The bound is a positive canonical number [mB * 2^eB]. *)

Section RoundBelow.

Variables mB eB : Z.
Hypothesis HmB : 0 < mB.
Hypothesis HcB : canonical mB eB.

(** The successor of a number below the bound is still at most the
    bound. *)
Lemma succ_below m e :
  0 <= m -> (0 < m -> canonical m e) -> (m = 0 -> e = -1074) ->
  (F2R m e < F2R mB eB)%R -> (F2R (m + 1) e <= F2R mB eB)%R.
Proof.
  intros Hm Hc Hz Hlt.
  destruct (Z_le_gt_dec e eB) as [Hle|Hgt].
  - assert (E : F2R mB eB = F2R (mB * 2 ^ (eB - e)) e).
    { rewrite F2R_shift by lia. f_equal. lia. }
    rewrite E in *. apply F2R_lt_inv in Hlt. apply F2R_le. lia.
  - assert (-1074 <= eB) by (unfold canonical in HcB; rewrite fexp_eq in HcB; lia).
    assert (H0 : 0 < m) by lia.
    pose proof (canonical_exp_lt m e mB eB H0 HmB (Hc H0) HcB ltac:(lia)). lra.
Qed.

(** Rounding a located value that does not exceed the bound gives a
    canonical number that does not exceed the bound either; in
    particular it does not overflow. *)
Lemma binary_round_aux_le mx ex lx :
  0 <= mx -> ex <= fexp prec emax (Zdigits2 mx + ex) ->
  eB <= 971 ->
  (F2R mx ex <= F2R mB eB)%R ->
  (loc_up lx = true -> F2R mx ex < F2R mB eB)%R ->
  binary_round_aux prec emax false mx ex lx = S754_zero false \/
  exists m e,
    binary_round_aux prec emax false mx ex lx = S754_finite false m e /\
    canonical (Zpos m) e /\ e <= 971 /\
    (F2R (Zpos m) e <= F2R mB eB)%R.
Proof.
  intros Hmx Hex HeB Hle Hup.
  destruct (shr_fexp_spec mx ex lx Hmx Hex)
    as (y1 & E1 & Hy1 & Hv1 & Hr1 & Hc1 & Hz1).
  cbv zeta in *. set (e1 := fexp prec emax (Zdigits2 mx + ex)) in *.
  pose proof (round_nearest_even_spec y1) as Hrnd. cbv zeta in Hrnd.
  set (m2 := round_nearest_even (shr_m y1) (loc_of_shr_record y1)) in *.
  assert (Hm2 : 0 <= m2) by lia.
  assert (Hv2 : (F2R m2 e1 <= F2R mB eB)%R).
  { destruct Hrnd as [->|[-> Hr]]; [lra|].
    apply succ_below; try assumption.
    destruct (Hr1 Hr) as [(Em & Ee & Hl)|Hs].
    - rewrite Em, Ee. auto.
    - lra. }
  assert (Hp2 : e1 <= fexp prec emax (Zdigits2 m2 + e1)).
  { destruct (Z.eq_dec (shr_m y1) 0) as [Hzero|Hnz].
    - rewrite (Hz1 Hzero), fexp_eq. lia.
    - assert (Hpos : 0 < shr_m y1) by lia.
      pose proof (Hc1 Hpos) as Hc. unfold canonical in Hc.
      rewrite <- Hc at 1. apply fexp_mono.
      assert (Zdigits2 (shr_m y1) <= Zdigits2 m2) by (apply Zdigits2_mono; lia).
      lia. }
  destruct (shr_fexp_spec m2 e1 loc_Exact Hm2 Hp2)
    as (y2 & E2 & Hy2 & Hv3 & _ & Hc2 & _).
  cbv zeta in *. set (e2 := fexp prec emax (Zdigits2 m2 + e1)) in *.
  unfold binary_round_aux. rewrite E1. fold m2. rewrite E2.
  destruct (shr_m y2) as [|p|p] eqn:Ep; [now left| |lia].
  right. exists p, e2.
  assert (Hcp : canonical (Zpos p) e2) by (apply Hc2; lia).
  assert (Hvp : (F2R (Zpos p) e2 <= F2R mB eB)%R) by lra.
  assert (He2 : e2 <= 971).
  { destruct (canonical_order (Zpos p) e2 mB eB ltac:(lia) HmB Hcp HcB Hvp)
      as [Hlt|[Heq _]]; lia. }
  replace (e2 <=? emax - prec) with true by (symmetry; apply Z.leb_le; exact He2).
  repeat split; assumption.
Qed.

End RoundBelow.

Lemma canonical_valid m e :
  canonical (Zpos m) e -> e <= 971 ->
  valid_binary (S754_finite false m e) = true.
Proof.
  unfold canonical. intros Hc He. cbn [SpecFloat.valid_binary].
  unfold SpecFloat.bounded, SpecFloat.canonical_mantissa. cbn [Zdigits2] in Hc.
  rewrite Hc, Z.eqb_refl. apply Z.leb_le. exact He.
Qed.

Lemma SFleb_canonical m e mB eB :
  canonical (Zpos m) e -> canonical (Zpos mB) eB ->
  (F2R (Zpos m) e <= F2R (Zpos mB) eB)%R ->
  SFleb (S754_finite false m e) (S754_finite false mB eB) = true.
Proof.
  intros Hc HcB Hle. unfold SFleb, SFcompare.
  destruct (canonical_order (Zpos m) e (Zpos mB) eB ltac:(lia) ltac:(lia) Hc HcB Hle)
    as [Hlt|[-> Hm]].
  - rewrite (proj2 (Z.compare_lt_iff e eB) Hlt). reflexivity.
  - rewrite Z.compare_refl. fold (Pos.compare m mB).
    destruct (Pos.compare m mB) eqn:E; try reflexivity.
    apply Pos.compare_gt_iff in E. lia.
Qed.

Lemma F2R_one : F2R (2 ^ 52) (-52) = 1%R.
Proof.
  rewrite <- (Z.mul_1_l (2 ^ 52)), F2R_shift by lia.
  unfold F2R, bpow. simpl. lra.
Qed.

Lemma F2R_mult m1 e1 m2 e2 :
  F2R (m1 * m2) (e1 + e2) = (F2R m1 e1 * F2R m2 e2)%R.
Proof. unfold F2R. rewrite mult_IZR, bpow_add. ring. Qed.

Lemma F2R_nonneg m e : 0 <= m -> (0 <= F2R m e)%R.
Proof.
  intros H. apply IZR_le in H. pose proof (bpow_pos e). unfold F2R. nra.
Qed.

(** *** Division of two positive integers, the smaller by the larger *)

Lemma SFdiv_core_int c N :
  0 < c -> 0 < N ->
  let e' := Z.min (fexp prec emax (Zdigits2 c - Zdigits2 N)) 0 in
  SFdiv_core_binary prec emax c 0 N 0
  = ((c * 2 ^ (- e')) / N, e', new_location N ((c * 2 ^ (- e')) mod N)).
Proof.
  intros Hc HN e'. unfold SFdiv_core_binary.
  rewrite !Z.add_0_r. change (0 - 0) with 0. fold e'.
  replace (0 - e') with (- e') by lia.
  assert (He' : 0 <= - e') by lia.
  assert (Hm : match - e' with
               | Zpos _ => Z.shiftl c (- e')
               | Z0 => c
               | Zneg _ => 0
               end = c * 2 ^ (- e')).
  { destruct (- e') as [|p|p] eqn:E.
    - rewrite Z.mul_1_r. reflexivity.
    - apply Z.shiftl_mul_pow2. lia.
    - lia. }
  rewrite Hm. unfold Z.div, Z.modulo.
  destruct (Z.div_eucl (c * 2 ^ (- e')) N). reflexivity.
Qed.

Lemma new_location_up N r : loc_up (new_location N r) = true -> r <> 0.
Proof.
  intros H ->. unfold new_location, new_location_even, new_location_odd in H.
  destruct (Z.even N); simpl in H; discriminate.
Qed.

Lemma SFdiv_int_le_one (c N : positive) :
  (c <= N)%positive ->
  let r := SFdiv prec emax (S754_finite false c 0) (S754_finite false N 0) in
  r = S754_zero false \/
  exists m e, r = S754_finite false m e /\ canonical (Zpos m) e /\ e <= 971 /\
              (F2R (Zpos m) e <= 1)%R.
Proof.
  intros HcN. cbn [SFdiv xorb]. rewrite SFdiv_core_int by lia. cbv zeta.
  set (e' := Z.min (fexp prec emax (Zdigits2 (Zpos c) - Zdigits2 (Zpos N))) 0).
  set (s := - e').
  assert (Hs : 0 <= s) by lia.
  assert (Hp : 0 < 2 ^ s) by (apply Z.pow_pos_nonneg; lia).
  set (q := Zpos c * 2 ^ s / Zpos N).
  set (r := (Zpos c * 2 ^ s) mod Zpos N).
  assert (Hdm : Zpos c * 2 ^ s = Zpos N * q + r) by (apply Z.div_mod; lia).
  assert (Hr : 0 <= r < Zpos N) by (apply Z.mod_pos_bound; lia).
  assert (Hq0 : 0 <= q) by (apply Z.div_pos; lia).
  assert (Hq : q <= 2 ^ s) by nia.
  rewrite <- F2R_one.
  apply binary_round_aux_le; try assumption; try lia; try reflexivity.
  - (* enough digits *)
    apply Z.le_trans with (fexp prec emax (Zdigits2 (Zpos c) - Zdigits2 (Zpos N))); [lia|].
    apply fexp_mono.
    pose proof (Zdigits2_bounds (Zpos c) ltac:(lia)) as [Hclo _].
    pose proof (Zdigits2_bounds (Zpos N) ltac:(lia)) as [_ HNhi].
    pose proof (Zdigits2_nonneg q).
    assert (Hdc : 1 <= Zdigits2 (Zpos c)) by (cbn [Zdigits2]; lia).
    assert (HdN : 1 <= Zdigits2 (Zpos N)) by (cbn [Zdigits2]; lia).
    set (k := Zdigits2 (Zpos c) - 1 + s - Zdigits2 (Zpos N)) in *.
    destruct (Z_lt_le_dec k 0) as [Hk|Hk]; [lia|].
    assert (Hqk : 2 ^ k <= q).
    { apply Z.div_le_lower_bound; [lia|].
      apply Z.le_trans with (2 ^ Zdigits2 (Zpos N) * 2 ^ k).
      - apply Z.mul_le_mono_nonneg_r; [apply Z.pow_nonneg|]; lia.
      - rewrite <- Z.pow_add_r by lia.
        replace (Zdigits2 (Zpos N) + k) with (Zdigits2 (Zpos c) - 1 + s) by lia.
        rewrite Z.pow_add_r by lia.
        apply Z.mul_le_mono_nonneg_r; lia. }
    assert (0 < q) by (pose proof (Z.pow_pos_nonneg 2 k); lia).
    pose proof (Zdigits2_bounds q H0) as [_ Hqhi].
    assert (k < Zdigits2 q).
    { apply (Z.pow_lt_mono_r_iff 2); [lia|lia|lia]. }
    lia.
  - (* the quotient is at most one *)
    replace e' with (- s) by lia.
    rewrite <- (Z.mul_1_l (2 ^ 52)), F2R_shift by lia.
    replace (-52 + 52) with (-s + s) by lia.
    rewrite <- F2R_shift by lia. apply F2R_le. lia.
  - (* and strictly below one when it is not exact *)
    intros Hup. apply new_location_up in Hup. fold r in Hup.
    replace e' with (- s) by lia.
    rewrite <- (Z.mul_1_l (2 ^ 52)), F2R_shift by lia.
    replace (-52 + 52) with (-s + s) by lia.
    rewrite <- F2R_shift by lia. apply F2R_lt. nia.
Qed.

(** *** Multiplying a number that is at most one by a bound *)

Lemma SFmul_le_bound (m : positive) e (mB : positive) eB :
  canonical (Zpos m) e -> (F2R (Zpos m) e <= 1)%R ->
  canonical (Zpos mB) eB -> eB <= 0 ->
  let r := SFmul prec emax (S754_finite false m e) (S754_finite false mB eB) in
  r = S754_zero false \/
  exists m' e', r = S754_finite false m' e' /\ canonical (Zpos m') e' /\ e' <= 971 /\
                (F2R (Zpos m') e' <= F2R (Zpos mB) eB)%R.
Proof.
  intros Hc Hle HcB HeB. cbn [SFmul xorb].
  apply binary_round_aux_le; try assumption; try lia.
  - unfold canonical in Hc. rewrite fexp_eq in *.
    assert (Zdigits2 (Zpos m) <= Zdigits2 (Zpos (m * mB))) by (apply Zdigits2_mono; nia).
    lia.
  - rewrite Pos2Z.inj_mul, F2R_mult.
    pose proof (F2R_nonneg (Zpos mB) eB ltac:(lia)).
    pose proof (F2R_nonneg (Zpos m) e ltac:(lia)). nra.
  - discriminate.
Qed.


(** ** [int / int] and the accuracy *)

Lemma result_bind_ok {A B : Type} (c : result A) (k : A -> result B) (a : A) :
  c = Ok a -> bind c k = k a.
Proof. intros ->. reflexivity. Qed.

Lemma fold_add_ones {A : Type} (l : list A) (acc : Z) :
  fold_left Z.add (map (fun _ => 1) l) acc = acc + Z.of_nat (List.length l).
Proof.
  revert acc. induction l as [|x l IH]; intros acc; cbn [map fold_left List.length].
  - lia.
  - rewrite IH. lia.
Qed.

Lemma sum_ones {A : Type} (l : list A) :
  sum (map (fun _ => 1) l) = Z.of_nat (List.length l).
Proof. unfold sum. rewrite fold_add_ones. lia. Qed.

Lemma count_correct_bounds h :
  0 <= count_correct h <= Z.of_nat (List.length h).
Proof.
  unfold count_correct. pose proof (filter_length_le correct h). lia.
Qed.

Lemma Prim2SF_hundred : Prim2SF 100 = S754_finite false 7036874417766400 (-46).
Proof. reflexivity. Qed.

Lemma Prim2SF_zero : Prim2SF 0 = S754_zero false.
Proof. reflexivity. Qed.

Lemma unit_SF_valid x : unit_SF x -> valid_binary x = true.
Proof.
  intros [->|(m & e & -> & Hc & He & _)]; [reflexivity|].
  apply canonical_valid; assumption.
Qed.

(** The quotient of two [int]s [0 <= c <= N], [0 < N], does not raise
    and lies in the unit interval. *)
Lemma int_truediv_unit c N :
  0 <= c <= N -> 0 < N ->
  exists x, int_truediv c N = Ok (SF2Prim x) /\ unit_SF x.
Proof.
  intros Hc HN. unfold int_truediv.
  replace (N =? 0) with false by (symmetry; apply Z.eqb_neq; lia).
  destruct N as [|pN|pN]; try lia.
  destruct c as [|pc|pc]; try lia.
  - exists (S754_zero false). split; [reflexivity|left; reflexivity].
  - cbn [SF_of_int].
    destruct (SFdiv_int_le_one pc pN ltac:(lia)) as [E|(m & e & E & H)]; cbv zeta in E.
    + exists (S754_zero false). rewrite E. split; [reflexivity|left; reflexivity].
    + exists (S754_finite false m e). rewrite E. split; [reflexivity|].
      right. exists m, e. split; [reflexivity|exact H].
Qed.

(** The product of a number of the unit interval with [100.0] lies
    between [0.0] and [100.0]. *)
Lemma times_hundred_bounds x :
  unit_SF x ->
  (0 <=? SF2Prim x * 100)%float = true /\ (SF2Prim x * 100 <=? 100)%float = true.
Proof.
  intros Hx. pose proof (unit_SF_valid x Hx) as Hv.
  rewrite !leb_spec, mul_spec, Prim2SF_SF2Prim, Prim2SF_hundred, Prim2SF_zero by exact Hv.
  unfold SF64mul.
  destruct Hx as [->|(m & e & -> & Hc & He & Hle)]; [split; reflexivity|].
  destruct (SFmul_le_bound m e 7036874417766400 (-46) Hc Hle eq_refl ltac:(lia))
    as [E|(m' & e' & E & Hc' & He' & Hle')]; cbv zeta in E; rewrite E.
  - split; reflexivity.
  - split; [reflexivity|]. apply SFleb_canonical; [assumption|reflexivity|assumption].
Qed.

(** Multiplication of binary64 numbers is commutative. *)
Lemma SFmul_comm x y : SFmul prec emax x y = SFmul prec emax y x.
Proof.
  destruct x as [sx|sx| |sx mx ex], y as [sy|sy| |sy my ey];
    cbn [SFmul]; rewrite ?(xorb_comm sx sy); try reflexivity.
  rewrite (Pos.mul_comm mx my), (Z.add_comm ex ey). reflexivity.
Qed.

Lemma float_mul_comm (x y : float) : (x * y)%float = (y * x)%float.
Proof. apply Prim2SF_inj. rewrite !mul_spec. apply SFmul_comm. Qed.

(** What [get_accuracy] returns on a history that is not empty. *)
Lemma get_accuracy_nonempty self :
  history self <> [] ->
  exists x,
    int_truediv (count_correct (history self)) (Z.of_nat (List.length (history self)))
    = Ok (SF2Prim x) /\
    unit_SF x /\
    get_accuracy self = Ok (SF2Prim x * 100)%float.
Proof.
  intros Hne. unfold get_accuracy.
  destruct (history self) as [|t h] eqn:Eh; [congruence|].
  rewrite sum_ones. fold (count_correct (t :: h)).
  destruct (int_truediv_unit (count_correct (t :: h)) (Z.of_nat (List.length (t :: h))))
    as (x & E & Hx).
  - apply count_correct_bounds.
  - cbn [List.length]. lia.
  - exists x. rewrite E. repeat split; assumption.
Qed.

(** ** The digest as an integer *)

Lemma hex_value_digit d : 0 <= d < 16 -> hex_value (SHA256.hex_digit d) = Some d.
Proof.
  intros Hd.
  assert (H : d = 0 \/ d = 1 \/ d = 2 \/ d = 3 \/ d = 4 \/ d = 5 \/ d = 6 \/ d = 7 \/
              d = 8 \/ d = 9 \/ d = 10 \/ d = 11 \/ d = 12 \/ d = 13 \/ d = 14 \/ d = 15)
    by lia.
  repeat (destruct H as [->|H]; [reflexivity|]). subst d. reflexivity.
Qed.

(** Reading back the [n] digits that [hex_of] wrote. *)
Lemma int_base16_from_hex_of n x acc s :
  int_base16_from acc (SHA256.hex_of n x ++ s)
  = int_base16_from (acc * 16 ^ Z.of_nat n + x mod 16 ^ Z.of_nat n) s.
Proof.
  revert acc. induction n as [|n IH]; intros acc.
  - cbn [SHA256.hex_of String.append Z.of_nat]. rewrite Z.pow_0_r, Z.mod_1_r. f_equal. lia.
  - cbn [SHA256.hex_of String.append int_base16_from].
    assert (Hp : 0 < 16 ^ Z.of_nat n) by (apply Z.pow_pos_nonneg; lia).
    rewrite hex_value_digit by (apply Z.mod_pos_bound; lia).
    rewrite IH. f_equal.
    rewrite Nat2Z.inj_succ, Z.pow_succ_r by lia.
    rewrite (Z.mul_comm 16 (16 ^ Z.of_nat n)).
    rewrite (Z.rem_mul_r x (16 ^ Z.of_nat n) 16) by lia.
    rewrite Z.shiftr_div_pow2 by lia.
    replace (2 ^ (4 * Z.of_nat n)) with (16 ^ Z.of_nat n)
      by (change 16 with (2 ^ 4); rewrite <- Z.pow_mul_r by lia; reflexivity).
    ring.
Qed.

Lemma hex_of_word w acc s :
  word32 w ->
  int_base16_from acc (SHA256.hex_of 8 w ++ s) = int_base16_from (acc * 2 ^ 32 + w) s.
Proof.
  intros Hw. rewrite int_base16_from_hex_of.
  change (16 ^ Z.of_nat 8) with (2 ^ 32).
  rewrite Z.mod_small by exact Hw. reflexivity.
Qed.

(** [int(hexdigest, 16)] never raises and is the digest read as one
    big-endian integer. *)
Lemma int_base16_hexdigest d :
  regs_ok d -> int_base16 (SHA256.hexdigest d) = Ok (SHA256.digest_int d).
Proof.
  unfold regs_ok, SHA256.digest_words. intros H.
  repeat match goal with
         | H : Forall _ (_ :: _) |- _ => inversion H; clear H; subst
         end.
  unfold SHA256.hexdigest, SHA256.digest_int, SHA256.digest_words.
  cbn [fold_right fold_left].
  assert (E : int_base16 (SHA256.hex_of 8 (SHA256.ra d) ++
               SHA256.hex_of 8 (SHA256.rb d) ++ SHA256.hex_of 8 (SHA256.rc d) ++
               SHA256.hex_of 8 (SHA256.rd d) ++ SHA256.hex_of 8 (SHA256.re d) ++
               SHA256.hex_of 8 (SHA256.rf d) ++ SHA256.hex_of 8 (SHA256.rg d) ++
               SHA256.hex_of 8 (SHA256.rh d) ++ EmptyString)
              = int_base16_from 0 (SHA256.hex_of 8 (SHA256.ra d) ++
               SHA256.hex_of 8 (SHA256.rb d) ++ SHA256.hex_of 8 (SHA256.rc d) ++
               SHA256.hex_of 8 (SHA256.rd d) ++ SHA256.hex_of 8 (SHA256.re d) ++
               SHA256.hex_of 8 (SHA256.rf d) ++ SHA256.hex_of 8 (SHA256.rg d) ++
               SHA256.hex_of 8 (SHA256.rh d) ++ EmptyString)) by reflexivity.
  rewrite E. rewrite !hex_of_word by assumption. reflexivity.
Qed.

Lemma wrap32_word x : word32 (SHA256.wrap32 x).
Proof. unfold word32, SHA256.wrap32. apply Z.mod_pos_bound. lia. Qed.

Lemma feed_ok h s : regs_ok (SHA256.feed h s).
Proof.
  unfold regs_ok, SHA256.feed, SHA256.digest_words, SHA256.add32.
  cbn [SHA256.ra SHA256.rb SHA256.rc SHA256.rd SHA256.re SHA256.rf SHA256.rg SHA256.rh].
  repeat constructor; apply wrap32_word.
Qed.

Lemma blocks_ok n : forall ws h, regs_ok h -> regs_ok (SHA256.blocks n ws h).
Proof.
  induction n as [|n IH]; intros ws h Hh; cbn [SHA256.blocks].
  - exact Hh.
  - apply IH. apply feed_ok.
Qed.

Lemma H0_ok : regs_ok SHA256.H0.
Proof. repeat constructor; unfold word32; cbn; lia. Qed.

Lemma sha256_ok text : regs_ok (sha256 text).
Proof. unfold sha256, SHA256.digest. apply blocks_ok, H0_ok. Qed.

(** ** The hashed text *)

Lemma slice_from_last {A : Type} (l : list A) :
  slice_from (-10) l = last_at_most 10 l.
Proof.
  unfold slice_from, last_at_most. change (-10 <? 0) with true. cbv iota.
  f_equal. lia.
Qed.

Lemma last_at_most_length {A : Type} (k : nat) (l : list A) :
  List.length (last_at_most k l) = Nat.min k (List.length l).
Proof. unfold last_at_most. rewrite length_skipn. lia. Qed.

Lemma last_at_most_suffix {A : Type} (k : nat) (l : list A) :
  exists front, l = front ++ last_at_most k l.
Proof.
  exists (firstn (List.length l - k) l). unfold last_at_most.
  symmetry. apply firstn_skipn.
Qed.

Lemma last_at_most_short {A : Type} (k : nat) (l : list A) :
  (List.length l <= k)%nat -> last_at_most k l = l.
Proof.
  intros H. unfold last_at_most.
  replace (List.length l - k)%nat with 0%nat by lia. reflexivity.
Qed.

Lemma last_at_most_map {A B : Type} (f : A -> B) (k : nat) (l : list A) :
  map f (last_at_most k l) = last_at_most k (map f l).
Proof. unfold last_at_most. rewrite length_map, skipn_map. reflexivity. Qed.

(** *** [str] and its limit of 4300 digits *)

Lemma str_refused_from_eq : str_refused_from = 10 ^ int_max_str_digits.
Proof. vm_compute. reflexivity. Qed.

Lemma printable_dec n : {printable n} + {~ printable n}.
Proof. unfold printable. apply Z_lt_dec. Qed.

Lemma str_int_ok n : printable n -> str_int n = Ok (decimal n).
Proof.
  unfold printable, str_int. rewrite str_refused_from_eq. intros H.
  replace (10 ^ int_max_str_digits <=? Z.abs n) with false
    by (symmetry; apply Z.leb_gt; exact H).
  reflexivity.
Qed.

Lemma str_int_refused n : ~ printable n -> str_int n = Raise ValueError.
Proof.
  unfold printable, str_int. rewrite str_refused_from_eq. intros H.
  replace (10 ^ int_max_str_digits <=? Z.abs n) with true
    by (symmetry; apply Z.leb_le; apply Z.nlt_ge; exact H).
  reflexivity.
Qed.

(** [str] raises nothing but [ValueError]. *)
Lemma str_int_raises n e : str_int n = Raise e -> e = ValueError.
Proof.
  unfold str_int. destruct (str_refused_from <=? Z.abs n); intros H.
  - injection H. auto.
  - discriminate H.
Qed.

Lemma not_printable_from m :
  10 ^ int_max_str_digits <= m -> ~ printable m /\ ~ printable (- m).
Proof.
  intros Hm. assert (H0 : 0 <= m).
  { apply Z.le_trans with (10 ^ int_max_str_digits); [|exact Hm].
    apply Z.pow_nonneg. discriminate. }
  unfold printable. rewrite Z.abs_opp, (Z.abs_eq m H0).
  split; apply Z.le_ngt; exact Hm.
Qed.

Lemma small_printable n : Z.abs n <= 100 -> printable n.
Proof.
  intros H. unfold printable. apply Z.le_lt_trans with 100; [exact H|reflexivity].
Qed.

Lemma bit_printable b : is_bit b -> printable b.
Proof. intros [-> | ->]; apply small_printable; cbn; lia. Qed.

Lemma bits_window h : bits_history h -> window_printable h.
Proof.
  unfold bits_history, window_printable. intros H.
  destruct (last_at_most_suffix 10 h) as [front E].
  rewrite E in H. apply Forall_app in H. destruct H as [_ H].
  eapply Forall_impl; [|exact H]. intros t. apply bit_printable.
Qed.

Lemma map_result_ok {A B : Type} (f : A -> result B) (g : A -> B) (l : list A) :
  Forall (fun x => f x = Ok (g x)) l -> map_result f l = Ok (map g l).
Proof.
  induction 1 as [|x l Hx _ IH]; cbn [map_result map]; [reflexivity|].
  rewrite Hx, IH. reflexivity.
Qed.

Lemma map_result_map {A B C : Type} (g : A -> B) (f : B -> result C) (l : list A) :
  map_result (fun x => f (g x)) l = map_result f (map g l).
Proof.
  induction l as [|x l IH]; cbn [map_result map]; [reflexivity|].
  rewrite IH. reflexivity.
Qed.

(** When an element raises, and nothing but [e] is ever raised, the
    whole list raises [e]. *)
Lemma map_result_raises {A B : Type} (f : A -> result B) (e : exn) (l : list A) :
  (forall x e', f x = Raise e' -> e' = e) ->
  Exists (fun x => exists e', f x = Raise e') l ->
  map_result f l = Raise e.
Proof.
  intros Hf. induction 1 as [x l [e' Hx]|x l _ IH]; cbn [map_result].
  - rewrite Hx. cbn [bind]. f_equal. apply (Hf x). exact Hx.
  - destruct (f x) as [y|e'] eqn:Ex; cbn [bind].
    + rewrite IH. reflexivity.
    + f_equal. apply (Hf x). exact Ex.
Qed.

(** *** The text and its digest *)

Lemma history_str_ok self :
  window_printable (history self) ->
  history_str self
  = Ok (join (map (fun t => decimal (actual t)) (last_at_most 10 (history self)))).
Proof.
  intros H. unfold history_str. rewrite slice_from_last.
  rewrite (map_result_ok _ (fun t => decimal (actual t))).
  - reflexivity.
  - eapply Forall_impl; [|exact H]. intros t Ht. apply str_int_ok. exact Ht.
Qed.

Lemma history_str_refused self :
  ~ window_printable (history self) -> history_str self = Raise ValueError.
Proof.
  intros H. unfold history_str. rewrite slice_from_last.
  rewrite (map_result_raises _ ValueError); [reflexivity| |].
  - intros x e'. apply str_int_raises.
  - unfold window_printable in H.
    apply neg_Forall_Exists_neg in H; [|intros t; apply printable_dec].
    eapply Exists_impl; [|exact H]. intros t Ht.
    exists ValueError. apply str_int_refused. exact Ht.
Qed.

(** The part of the text that comes from the history is a function of
    the [actual] fields alone, whether it raises or not. *)
Lemma history_str_actual self1 self2 :
  map actual (history self1) = map actual (history self2) ->
  history_str self1 = history_str self2.
Proof.
  intros H. unfold history_str. rewrite !slice_from_last.
  rewrite !(map_result_map actual str_int), !last_at_most_map, H. reflexivity.
Qed.

Lemma quantum_state_eq self flip_num :
  printable flip_num -> window_printable (history self) ->
  quantum_state self flip_num
  = Ok (hashed_text (seed self) flip_num (history self)).
Proof.
  intros Hi Hh. unfold quantum_state, hashed_text.
  rewrite (history_str_ok self Hh), (str_int_ok flip_num Hi). reflexivity.
Qed.

Lemma quantum_num_eq self flip_num :
  printable flip_num -> window_printable (history self) ->
  quantum_num self flip_num
  = Ok (digest_mod_100 (seed self) flip_num (history self)).
Proof.
  intros Hi Hh. unfold quantum_num, digest_mod_100.
  rewrite (quantum_state_eq self flip_num Hi Hh). cbn [bind].
  rewrite int_base16_hexdigest by apply sha256_ok. reflexivity.
Qed.

Lemma biphoton_cascade_prediction_eq self flip_num :
  printable flip_num -> window_printable (history self) ->
  biphoton_cascade_prediction self flip_num
  = Ok (if digest_mod_100 (seed self) flip_num (history self) <? 85 then 1 else 0).
Proof.
  intros Hi Hh. unfold biphoton_cascade_prediction.
  rewrite (quantum_num_eq self flip_num Hi Hh). reflexivity.
Qed.

(** Outside these conditions the prediction raises [ValueError]. *)
Lemma biphoton_cascade_prediction_refused self flip_num :
  ~ (printable flip_num /\ window_printable (history self)) ->
  biphoton_cascade_prediction self flip_num = Raise ValueError.
Proof.
  intros H. unfold biphoton_cascade_prediction, quantum_num, quantum_state.
  destruct (Forall_dec (fun t => printable (actual t))
              (fun t => printable_dec (actual t))
              (last_at_most 10 (history self))) as [Hh|Hh].
  - rewrite (history_str_ok self Hh). cbn [bind].
    rewrite str_int_refused; [reflexivity|]. intros Hi. apply H. split; assumption.
  - rewrite (history_str_refused self Hh). reflexivity.
Qed.

(** The hashed text is a function of the seed, the index and the
    [actual] fields alone. *)
Lemma hashed_text_actual seed i h1 h2 :
  map actual h1 = map actual h2 -> hashed_text seed i h1 = hashed_text seed i h2.
Proof.
  intros H. unfold hashed_text. do 3 f_equal.
  rewrite <- !(map_map actual decimal), !last_at_most_map, H. reflexivity.
Qed.

(** ** The engine *)

Lemma pure_random_flip_eq rng :
  pure_random_flip rng
  = (if (entropy rng (consumed rng) <? 0.5)%float then 1 else 0,
     mkRandomSource (entropy rng) (S (consumed rng))).
Proof. reflexivity. Qed.

Lemma pure_random_flip_bit rng : is_bit (fst (pure_random_flip rng)).
Proof.
  rewrite pure_random_flip_eq. cbn [fst]. unfold is_bit.
  destruct (entropy rng (consumed rng) <? 0.5)%float; auto.
Qed.

Lemma prediction_bit v : is_bit (if v <? 85 then 1 else 0).
Proof. unfold is_bit. destruct (v <? 85); auto. Qed.

Create HintDb bits.
#[local] Hint Resolve pure_random_flip_bit prediction_bit : bits.

(** The whole effect of one trial. *)
Lemma run_trial_eq self flip_num rng :
  printable flip_num -> window_printable (history self) ->
  let p := if digest_mod_100 (seed self) flip_num (history self) <? 85 then 1 else 0 in
  let a := fst (pure_random_flip rng) in
  run_trial self flip_num rng
  = Ok ((p, a, p =? a),
        append self (mkTrial flip_num p a (p =? a)),
        snd (pure_random_flip rng)).
Proof.
  intros Hi Hh. cbv zeta. unfold run_trial.
  rewrite (biphoton_cascade_prediction_eq self flip_num Hi Hh).
  cbn [bind]. destruct (pure_random_flip rng) as [a rng']. reflexivity.
Qed.

(** A trial on an index or a window that [str] refuses raises before
    anything is drawn or appended. *)
Lemma run_trial_refused self flip_num rng :
  ~ (printable flip_num /\ window_printable (history self)) ->
  run_trial self flip_num rng = Raise ValueError.
Proof.
  intros H. unfold run_trial.
  rewrite (biphoton_cascade_prediction_refused self flip_num H). reflexivity.
Qed.

(** ** The driver loop *)

Lemma append_nonempty self t : history (append self t) <> [].
Proof. cbn [append history]. destruct (history self); discriminate. Qed.

Lemma bits_history_append h t :
  bits_history h -> is_bit (actual t) -> bits_history (h ++ [t]).
Proof.
  intros Hh Ht. apply Forall_app. split; [exact Hh|]. constructor; [exact Ht|constructor].
Qed.

Lemma In_range lo hi k : In k (range lo hi) <-> lo <= k < hi.
Proof.
  unfold range. rewrite in_map_iff. split.
  - intros (j & <- & Hj). apply in_seq in Hj. lia.
  - intros H. exists (Z.to_nat (k - lo)). split; [lia|]. apply in_seq. lia.
Qed.

Lemma range_printable : Forall printable (range 1 101).
Proof.
  apply Forall_forall. intros k Hk. apply In_range in Hk.
  apply small_printable. lia.
Qed.

(** One iteration: one record with the loop index is appended, one draw
    is consumed, and nothing is raised. *)
Lemma loop_body_spec i s :
  printable i -> bits_history (history (qc s)) ->
  exists s' t,
    loop_body i s = Ok s' /\
    run_trial (qc s) i (rng s)
    = Ok ((prediction t, actual t, correct t), qc s', rng s') /\
    qc s' = append (qc s) t /\ flip t = i /\
    bits_history (history (qc s')) /\
    rng s' = mkRandomSource (entropy (rng s)) (S (consumed (rng s))).
Proof.
  intros Hi Hb. unfold loop_body.
  pose proof (run_trial_eq (qc s) i (rng s) Hi (bits_window _ Hb)) as E. cbv zeta in E.
  set (p := if digest_mod_100 (seed (qc s)) i (history (qc s)) <? 85 then 1 else 0) in *.
  set (a := fst (pure_random_flip (rng s))) in *.
  set (t := mkTrial i p a (p =? a)) in *.
  rewrite E. cbn [bind].
  destruct (get_accuracy_nonempty (append (qc s) t) (append_nonempty _ _))
    as (x & _ & _ & Eacc).
  assert (Hb' : bits_history (history (append (qc s) t))).
  { cbn [append history]. apply bits_history_append; [exact Hb|].
    subst t a. cbn [actual]. apply pure_random_flip_bit. }
  destruct ((i mod 10 =? 0) || (i <=? 5)).
  - rewrite Eacc. cbn [bind]. eexists. exists t. repeat split. exact Hb'.
  - eexists. exists t. repeat split. exact Hb'.
Qed.

Lemma for_each_loop_body l : forall s,
  Forall printable l -> bits_history (history (qc s)) ->
  exists s',
    for_each loop_body l s = Ok s' /\
    map flip (history (qc s')) = map flip (history (qc s)) ++ l /\
    seed (qc s') = seed (qc s) /\
    consumed (rng s') = (consumed (rng s) + List.length l)%nat /\
    entropy (rng s') = entropy (rng s).
Proof.
  induction l as [|i l IH]; intros s Hl Hb; cbn [for_each].
  - exists s. rewrite app_nil_r, Nat.add_0_r. repeat split.
  - inversion Hl as [|? ? Hi Hl']; subst.
    destruct (loop_body_spec i s Hi Hb) as (s1 & t & E & _ & Hqc & Hflip & Hb1 & Hrng).
    rewrite E. cbn [bind].
    destruct (IH s1 Hl' Hb1) as (s' & E' & Hf & Hs & Hc & He).
    exists s'. split; [exact E'|].
    rewrite Hf, Hs, Hc, He, Hqc, Hrng.
    cbn [append history seed consumed entropy List.length].
    rewrite map_app, <- app_assoc. cbn [map app]. rewrite Hflip.
    repeat split. lia.
Qed.

Lemma range_1_101_length : List.length (range 1 101) = 100%nat.
Proof. reflexivity. Qed.

(** The driver does not raise; its report is the one below. *)
Lemma run_quantum_poc_eq rng0 :
  exists s a,
    for_each loop_body (range 1 101) (mkLoopState (init default_seed) rng0 [])
    = Ok s /\
    map flip (history (qc s)) = range 1 101 /\
    consumed (rng s) = (consumed rng0 + 100)%nat /\
    get_accuracy (qc s) = Ok a /\
    run_quantum_poc rng0
    = Ok {| final_state := s;
            final_acc := a;
            shift := (a - 50)%float;
            outcome := classify_accuracy a;
            n := 100;
            se := PrimFloat.sqrt (0.5 * (1 - 0.5) / 100);
            z_score := ((a / 100 - 0.5) / PrimFloat.sqrt (0.5 * (1 - 0.5) / 100))%float;
            level := classify_z ((a / 100 - 0.5) / PrimFloat.sqrt (0.5 * (1 - 0.5) / 100)) |}.
Proof.
  destruct (for_each_loop_body (range 1 101) (mkLoopState (init default_seed) rng0 []))
    as (s & E & Hf & _ & Hc & _).
  { apply range_printable. }
  { constructor. }
  cbn [qc rng init history map app] in Hf, Hc. rewrite range_1_101_length in Hc.
  assert (Hlen : List.length (history (qc s)) = 100%nat).
  { rewrite <- (length_map flip), Hf. reflexivity. }
  assert (Hne : history (qc s) <> []).
  { intros H. rewrite H in Hlen. discriminate. }
  destruct (get_accuracy_nonempty (qc s) Hne) as (x & _ & _ & Eacc).
  exists s, (SF2Prim x * 100)%float.
  repeat split; try assumption.
  unfold run_quantum_poc. cbv zeta. rewrite E. cbn [bind].
  rewrite Eacc. cbn [bind]. rewrite Hlen. reflexivity.
Qed.

(** * The properties of the specification *)

(** C1: for every trial index of at most 4300 decimal
    digits and every history whose last at most 10 [actual] values have
    at most 4300 decimal digits, [biphoton_cascade_prediction] returns 1
    exactly when the SHA-256 digest of the seed, the decimal
    representation of the index and those [actual] values, read as one
    large integer and reduced modulo 100, is below 85, and returns 0
    otherwise; that value always lies in [0, 100). *)
Theorem biphoton_cascade_prediction_threshold :
  forall (self : QuantumCollapse) (flip_num : Z),
    printable flip_num ->
    window_printable (history self) ->
    let v := digest_mod_100 (seed self) flip_num (history self) in
    0 <= v < 100 /\
    quantum_num self flip_num = Ok v /\
    biphoton_cascade_prediction self flip_num = Ok (if v <? 85 then 1 else 0) /\
    (biphoton_cascade_prediction self flip_num = Ok 1 <-> v < 85) /\
    (biphoton_cascade_prediction self flip_num = Ok 0 <-> 85 <= v).
Proof.
  intros self flip_num Hi Hh v.
  assert (Hv : 0 <= v < 100) by (apply Z.mod_pos_bound; lia).
  split; [exact Hv|]. split; [apply quantum_num_eq; assumption|].
  rewrite (biphoton_cascade_prediction_eq self flip_num Hi Hh). fold v.
  split; [reflexivity|].
  destruct (Z.ltb_spec v 85) as [Hlt|Hge]; split; split; intros H;
    try reflexivity; try lia; try discriminate H.
Qed.

Lemma biphoton_cascade_prediction_threshold_witness :
  let self := {| seed := default_seed;
                 history := [mkTrial 1 1 1 true; mkTrial 2 1 0 false] |} in
  let v := digest_mod_100 (seed self) 3 (history self) in
  0 <= v < 100 /\
  quantum_num self 3 = Ok v /\
  biphoton_cascade_prediction self 3 = Ok (if v <? 85 then 1 else 0) /\
  (biphoton_cascade_prediction self 3 = Ok 1 <-> v < 85) /\
  (biphoton_cascade_prediction self 3 = Ok 0 <-> 85 <= v).
Proof.
  apply (biphoton_cascade_prediction_threshold
           {| seed := default_seed;
              history := [mkTrial 1 1 1 true; mkTrial 2 1 0 false] |} 3).
  - apply small_printable. cbn. lia.
  - repeat constructor; apply small_printable; cbn; lia.
Defined.

(** Without the bound on the digits the property fails: on the index
    [10 ^ 4300], of 4301 digits, [str] raises [ValueError], so the call
    returns neither 1 nor 0, whatever the digest. *)
Lemma biphoton_cascade_prediction_threshold_counterexample :
  let self := init default_seed in
  let v := digest_mod_100 (seed self) (10 ^ 4300) (history self) in
  biphoton_cascade_prediction self (10 ^ 4300) = Raise ValueError /\
  ~ ((biphoton_cascade_prediction self (10 ^ 4300) = Ok 1 <-> v < 85) /\
     (biphoton_cascade_prediction self (10 ^ 4300) = Ok 0 <-> 85 <= v)).
Proof.
  intros self v.
  assert (E : biphoton_cascade_prediction self (10 ^ 4300) = Raise ValueError).
  { apply biphoton_cascade_prediction_refused. intros [H _].
    exact (proj1 (not_printable_from (10 ^ 4300) (Z.le_refl _)) H). }
  split; [exact E|]. rewrite E. intros [H1 H0].
  destruct (Z_lt_le_dec v 85) as [Hlt|Hge].
  - apply H1 in Hlt. discriminate Hlt.
  - apply H0 in Hge. discriminate Hge.
Qed.

(** C2: [get_accuracy] returns exactly 50.0 on an empty history, and on
    a history of [N >= 1] records it returns 100 multiplied by the
    quotient of the number of records whose [correct] field is true by
    [N] (the quotient and the product being those of binary64
    arithmetic). *)
Theorem get_accuracy_value :
  (forall self : QuantumCollapse,
      history self = [] -> get_accuracy self = Ok 50%float) /\
  (forall self : QuantumCollapse,
      (1 <= List.length (history self))%nat ->
      exists q : float,
        int_truediv (count_correct (history self))
                    (Z.of_nat (List.length (history self))) = Ok q /\
        get_accuracy self = Ok (100 * q)%float).
Proof.
  split.
  - intros self H. unfold get_accuracy. rewrite H. reflexivity.
  - intros self HN.
    assert (Hne : history self <> []).
    { intros H. rewrite H in HN. cbn in HN. lia. }
    destruct (get_accuracy_nonempty self Hne) as (x & Ediv & _ & Eacc).
    exists (SF2Prim x). split; [exact Ediv|].
    rewrite Eacc, float_mul_comm. reflexivity.
Qed.

(** C3: every trial whose index and whose last at most 10
    [actual] values have at most 4300 decimal digits appends exactly one
    record, so that the length of the history grows by exactly one, and
    the prediction of the trial is the one computed from the history as
    it was before the trial: it is fixed before the outcome is drawn and
    before the new record is appended. *)
Theorem run_trial_appends_one_record :
  forall (self : QuantumCollapse) (flip_num : Z) (rng : RandomSource),
    printable flip_num ->
    window_printable (history self) ->
  exists (p a : Z) (c : bool) (self' : QuantumCollapse) (rng' : RandomSource),
    run_trial self flip_num rng = Ok ((p, a, c), self', rng') /\
    List.length (history self') = S (List.length (history self)) /\
    biphoton_cascade_prediction self flip_num = Ok p /\
    (forall rng2 : RandomSource,
        exists a2 c2 self2 rng2',
          run_trial self flip_num rng2 = Ok ((p, a2, c2), self2, rng2')).
Proof.
  intros self flip_num rng Hi Hh.
  pose proof (run_trial_eq self flip_num rng Hi Hh) as E. cbv zeta in E.
  do 5 eexists. split; [exact E|]. split; [|split].
  - cbn [append history]. rewrite length_app. cbn [List.length]. lia.
  - apply biphoton_cascade_prediction_eq; assumption.
  - intros rng2. pose proof (run_trial_eq self flip_num rng2 Hi Hh) as E2.
    cbv zeta in E2. do 4 eexists. exact E2.
Qed.

Lemma run_trial_appends_one_record_witness :
  exists (p a : Z) (c : bool) (self' : QuantumCollapse) (rng' : RandomSource),
    run_trial (init default_seed) 1 alternating = Ok ((p, a, c), self', rng') /\
    List.length (history self') = S (List.length (history (init default_seed))) /\
    biphoton_cascade_prediction (init default_seed) 1 = Ok p /\
    (forall rng2 : RandomSource,
        exists a2 c2 self2 rng2',
          run_trial (init default_seed) 1 rng2 = Ok ((p, a2, c2), self2, rng2')).
Proof.
  apply run_trial_appends_one_record.
  - apply small_printable. cbn. lia.
  - constructor.
Defined.

(** Without the bound the property fails: a trial with the index
    [10 ^ 4300] raises [ValueError] and appends nothing. *)
Lemma run_trial_appends_one_record_counterexample :
  run_trial (init default_seed) (10 ^ 4300) alternating = Raise ValueError /\
  ~ (exists r self' rng',
        run_trial (init default_seed) (10 ^ 4300) alternating = Ok (r, self', rng')).
Proof.
  assert (E : run_trial (init default_seed) (10 ^ 4300) alternating
              = Raise ValueError).
  { apply run_trial_refused. intros [H _].
    exact (proj1 (not_printable_from (10 ^ 4300) (Z.le_refl _)) H). }
  split; [exact E|]. rewrite E. intros (r & self' & rng' & H). discriminate H.
Qed.




(** C5: [biphoton_cascade_prediction] is deterministic: its result is a
    function of the seed, the trial index and the [actual] fields of the
    history, so that two calls in the same state return the same bit. *)
Theorem biphoton_cascade_prediction_deterministic :
  forall (self1 self2 : QuantumCollapse) (flip_num : Z),
    seed self1 = seed self2 ->
    map actual (history self1) = map actual (history self2) ->
    biphoton_cascade_prediction self1 flip_num
    = biphoton_cascade_prediction self2 flip_num.
Proof.
  intros self1 self2 flip_num Hseed Hact.
  unfold biphoton_cascade_prediction, quantum_num, quantum_state.
  rewrite Hseed, (history_str_actual self1 self2 Hact). reflexivity.
Qed.

Lemma biphoton_cascade_prediction_deterministic_witness :
  biphoton_cascade_prediction
    {| seed := default_seed;
       history := [mkTrial 1 1 0 false; mkTrial 2 0 1 false] |} 3
  = biphoton_cascade_prediction
      {| seed := default_seed;
         history := [mkTrial 7 0 0 true; mkTrial 9 1 1 true] |} 3.
Proof.
  apply biphoton_cascade_prediction_deterministic; reflexivity.
Defined.

(** C6: [pure_random_flip] returns 0 or 1 whatever the state of the
    generator, and it has no error condition. *)
Theorem pure_random_flip_total :
  forall rng : RandomSource,
  exists (b : Z) (rng' : RandomSource),
    pure_random_flip rng = (b, rng') /\
    is_bit b /\
    (b = 1 <-> (entropy rng (consumed rng) <? 0.5)%float = true) /\
    consumed rng' = S (consumed rng).
Proof.
  intros rng. rewrite pure_random_flip_eq. do 2 eexists.
  split; [reflexivity|]. split; [|split; [|reflexivity]].
  - unfold is_bit. destruct (entropy rng (consumed rng) <? 0.5)%float; auto.
  - destruct (entropy rng (consumed rng) <? 0.5)%float; split; intros H;
      try reflexivity; discriminate H.
Qed.

(** C7: the driver is one loop over the 100 indices 1..100 that runs one
    trial per index and then terminates: it returns a report, the
    history then holds exactly 100 records, those of the trials
    1..100 in this order, and exactly 100 outcomes were drawn. *)
Theorem run_quantum_poc_hundred_trials :
  forall rng0 : RandomSource,
  exists r : Report,
    run_quantum_poc rng0 = Ok r /\
    for_each loop_body (range 1 101) (mkLoopState (init default_seed) rng0 [])
    = Ok (final_state r) /\
    List.length (range 1 101) = 100%nat /\
    List.length (history (qc (final_state r))) = 100%nat /\
    map flip (history (qc (final_state r))) = range 1 101 /\
    consumed (rng (final_state r)) = (consumed rng0 + 100)%nat.
Proof.
  intros rng0.
  destruct (run_quantum_poc_eq rng0) as (s & a & Eloop & Hflip & Hc & _ & E).
  eexists. split; [exact E|]. cbn [final_state].
  split; [exact Eloop|]. split; [reflexivity|]. split; [|split; assumption].
  rewrite <- (length_map flip), Hflip. reflexivity.
Qed.

(** C8: the z-score of the driver is the standardized deviation of the
    observed accuracy from the value 0.5 of the null hypothesis: with
    [n] the length of the history, which is 100, and
    [observed = accuracy / 100],
    [z = (observed - 0.5) / sqrt (0.5 * (1 - 0.5) / n)], where none of
    the two divisions and the square root raises. *)
Theorem run_quantum_poc_z_score :
  forall rng0 : RandomSource,
  exists (r : Report) (observed nf v : float),
    run_quantum_poc rng0 = Ok r /\
    get_accuracy (qc (final_state r)) = Ok (final_acc r) /\
    n r = Z.of_nat (List.length (history (qc (final_state r)))) /\
    n r = 100 /\
    float_truediv (final_acc r) 100 = Ok observed /\
    float_of_int (n r) = Ok nf /\
    float_truediv (0.5 * (1 - 0.5)) nf = Ok v /\
    math_sqrt v = Ok (se r) /\
    float_truediv (observed - 0.5) (se r) = Ok (z_score r) /\
    z_score r
    = ((final_acc r / 100 - 0.5) / PrimFloat.sqrt (0.5 * (1 - 0.5) / 100))%float.
Proof.
  intros rng0.
  destruct (run_quantum_poc_eq rng0) as (s & a & _ & Hflip & _ & Eacc & E).
  eexists. exists (a / 100)%float, 100%float, (0.5 * (1 - 0.5) / 100)%float.
  split; [exact E|].
  cbn [final_state final_acc n se z_score].
  split; [exact Eacc|]. split.
  - rewrite <- (length_map flip), Hflip. reflexivity.
  - repeat split.
Qed.




(** C10: for every history, empty or not, [get_accuracy] returns a value
    in the closed interval [0, 100]. *)
Theorem get_accuracy_in_range :
  forall self : QuantumCollapse,
  exists a : float,
    get_accuracy self = Ok a /\
    (0 <=? a)%float = true /\ (a <=? 100)%float = true.
Proof.
  intros self. destruct (history self) as [|t h] eqn:Eh.
  - exists 50%float. unfold get_accuracy. rewrite Eh. repeat split.
  - destruct (get_accuracy_nonempty self) as (x & _ & Hx & Eacc).
    { rewrite Eh. discriminate. }
    exists (SF2Prim x * 100)%float. split; [exact Eacc|].
    apply times_hundred_bounds. exact Hx.
Qed.

(** * Further properties of the engine and the driver *)

(** ** The window of the last ten outcomes *)

Lemma last_at_most_app {A : Type} (k : nat) (front l : list A) :
  (k <= List.length l)%nat -> last_at_most k (front ++ l) = last_at_most k l.
Proof.
  intros H. unfold last_at_most. rewrite length_app, skipn_app.
  replace (List.length front + List.length l - k - List.length front)%nat
    with (List.length l - k)%nat by lia.
  rewrite skipn_all2 by lia. reflexivity.
Qed.

(** X1: records older than the last ten never influence the prediction:
    in front of a history of at least ten records any records may be
    added or removed without changing the result. *)
Theorem prediction_ignores_old_records :
  forall (sd : string) (front h : list Trial) (flip_num : Z),
    (10 <= List.length h)%nat ->
    biphoton_cascade_prediction {| seed := sd; history := front ++ h |} flip_num
    = biphoton_cascade_prediction {| seed := sd; history := h |} flip_num.
Proof.
  intros sd front h flip_num H.
  unfold biphoton_cascade_prediction, quantum_num, quantum_state, history_str.
  cbn [seed history].
  rewrite !slice_from_last, last_at_most_app by exact H.
  reflexivity.
Qed.

Lemma prediction_ignores_old_records_witness :
  biphoton_cascade_prediction
    {| seed := default_seed;
       history := [mkTrial 1 1 1 true; mkTrial 2 1 0 false]
                  ++ map (fun k => mkTrial k 1 (k mod 2) (k mod 2 =? 1)) (range 3 13) |} 13
  = biphoton_cascade_prediction
      {| seed := default_seed;
         history := map (fun k => mkTrial k 1 (k mod 2) (k mod 2 =? 1)) (range 3 13) |} 13.
Proof.
  apply prediction_ignores_old_records. vm_compute. lia.
Defined.

(** ** The accuracy at its ends *)

Lemma get_accuracy_count self :
  history self <> [] ->
  get_accuracy self
  = accuracy_of (count_correct (history self)) (Z.of_nat (List.length (history self))).
Proof.
  intros Hne. unfold get_accuracy, accuracy_of.
  destruct (history self) as [|t h] eqn:Eh; [congruence|].
  rewrite sum_ones. reflexivity.
Qed.

Lemma new_location_zero N : new_location N 0 = loc_Exact.
Proof.
  unfold new_location, new_location_even, new_location_odd.
  destruct (Z.even N); reflexivity.
Qed.

(** An [int] divided by itself is exactly [1.0]. *)
Lemma int_truediv_self N : 0 < N -> int_truediv N N = Ok 1%float.
Proof.
  intros HN. unfold int_truediv.
  replace (N =? 0) with false by (symmetry; apply Z.eqb_neq; lia).
  destruct N as [|p|p]; try lia.
  cbn [SF_of_int SFdiv xorb]. rewrite SFdiv_core_int by lia. cbv zeta.
  rewrite Z.sub_diag.
  change (Z.min (fexp prec emax 0) 0) with (-53).
  change (- -53) with 53.
  rewrite Z.mul_comm, Z.div_mul, Z.mod_mul, new_location_zero by lia.
  reflexivity.
Qed.

Lemma int_truediv_zero N : 0 < N -> int_truediv 0 N = Ok 0%float.
Proof.
  intros HN. unfold int_truediv.
  replace (N =? 0) with false by (symmetry; apply Z.eqb_neq; lia).
  destruct N as [|p|p]; try lia. reflexivity.
Qed.

Lemma filter_all {A : Type} (f : A -> bool) (l : list A) :
  Forall (fun x => f x = true) l -> filter f l = l.
Proof.
  induction 1 as [|x l Hx _ IH]; cbn [filter]; [reflexivity|].
  rewrite Hx, IH. reflexivity.
Qed.

Lemma filter_none {A : Type} (f : A -> bool) (l : list A) :
  Forall (fun x => f x = false) l -> filter f l = [].
Proof.
  induction 1 as [|x l Hx _ IH]; cbn [filter]; [reflexivity|].
  rewrite Hx, IH. reflexivity.
Qed.

(** X2: when every record of a history that is not empty is correct,
    [get_accuracy] returns exactly 100.0, whatever the number of
    records. *)
Theorem get_accuracy_all_correct :
  forall self : QuantumCollapse,
    history self <> [] ->
    Forall (fun t => correct t = true) (history self) ->
    get_accuracy self = Ok 100%float.
Proof.
  intros self Hne Hall. rewrite get_accuracy_count by exact Hne.
  unfold count_correct. rewrite (filter_all _ _ Hall).
  unfold accuracy_of. rewrite int_truediv_self.
  - reflexivity.
  - destruct (history self); [congruence|cbn [List.length]; lia].
Qed.

Lemma get_accuracy_all_correct_witness :
  get_accuracy
    {| seed := default_seed;
       history := [mkTrial 1 1 1 true; mkTrial 2 0 0 true; mkTrial 3 1 1 true] |}
  = Ok 100%float.
Proof.
  apply get_accuracy_all_correct.
  - discriminate.
  - repeat constructor.
Defined.

(** X3: when no record of a history that is not empty is correct,
    [get_accuracy] returns exactly 0.0, and not the 50.0 of the empty
    history. *)
Theorem get_accuracy_none_correct :
  forall self : QuantumCollapse,
    history self <> [] ->
    Forall (fun t => correct t = false) (history self) ->
    get_accuracy self = Ok 0%float.
Proof.
  intros self Hne Hall. rewrite get_accuracy_count by exact Hne.
  unfold count_correct. rewrite (filter_none _ _ Hall).
  unfold accuracy_of. cbn [List.length Z.of_nat]. rewrite int_truediv_zero.
  - reflexivity.
  - destruct (history self); [congruence|cbn [List.length]; lia].
Qed.

Lemma get_accuracy_none_correct_witness :
  get_accuracy
    {| seed := default_seed;
       history := [mkTrial 1 1 0 false; mkTrial 2 0 1 false] |}
  = Ok 0%float.
Proof.
  apply get_accuracy_none_correct.
  - discriminate.
  - repeat constructor.
Defined.

(** X4: the accuracy is a function of the number of records and of the
    number of correct ones alone: neither the seed, nor the order of the
    records, nor their other fields matter. *)
Theorem get_accuracy_counts_only :
  forall self1 self2 : QuantumCollapse,
    List.length (history self1) = List.length (history self2) ->
    count_correct (history self1) = count_correct (history self2) ->
    get_accuracy self1 = get_accuracy self2.
Proof.
  intros self1 self2 Hlen Hcount.
  destruct (history self1) as [|t1 h1] eqn:E1, (history self2) as [|t2 h2] eqn:E2;
    try discriminate Hlen.
  - unfold get_accuracy. rewrite E1, E2. reflexivity.
  - rewrite !get_accuracy_count by (rewrite ?E1, ?E2; discriminate).
    rewrite E1, E2, Hlen, Hcount. reflexivity.
Qed.

Lemma get_accuracy_counts_only_witness :
  get_accuracy
    {| seed := "a";
       history := [mkTrial 1 1 1 true; mkTrial 2 1 0 false; mkTrial 3 0 0 true] |}
  = get_accuracy
      {| seed := "b";
         history := [mkTrial 9 1 0 false; mkTrial 8 0 0 true; mkTrial 7 1 1 true] |}.
Proof.
  apply get_accuracy_counts_only; reflexivity.
Defined.

(** ** The loop of the driver, one iteration at a time *)

(** The state after one iteration, written out. *)
Lemma loop_body_eq i s :
  printable i -> bits_history (history (qc s)) ->
  let p := if digest_mod_100 (seed (qc s)) i (history (qc s)) <? 85 then 1 else 0 in
  let a := if (entropy (rng s) (consumed (rng s)) <? 0.5)%float then 1 else 0 in
  let t := mkTrial i p a (p =? a) in
  exists acc : float,
    get_accuracy (append (qc s) t) = Ok acc /\
    loop_body i s
    = Ok {| qc := append (qc s) t;
            rng := mkRandomSource (entropy (rng s)) (S (consumed (rng s)));
            printed := if progress_due i
                       then printed s ++ [mkProgressLine i (p =? a) (p =? 1) (a =? 1) acc]
                       else printed s |}.
Proof.
  intros Hi Hb. cbv zeta. unfold loop_body, progress_due.
  pose proof (run_trial_eq (qc s) i (rng s) Hi (bits_window _ Hb)) as E. cbv zeta in E.
  rewrite pure_random_flip_eq in E. cbn [fst snd] in E. rewrite E. cbn [bind].
  destruct (get_accuracy_nonempty _ (append_nonempty (qc s)
     (mkTrial i (if digest_mod_100 (seed (qc s)) i (history (qc s)) <? 85 then 1 else 0)
        (if (entropy (rng s) (consumed (rng s)) <? 0.5)%float then 1 else 0)
        ((if digest_mod_100 (seed (qc s)) i (history (qc s)) <? 85 then 1 else 0)
         =? (if (entropy (rng s) (consumed (rng s)) <? 0.5)%float then 1 else 0)))))
    as (x & _ & _ & Eacc).
  exists (SF2Prim x * 100)%float. split; [exact Eacc|].
  rewrite Eacc. cbn [bind].
  destruct ((i mod 10 =? 0) || (i <=? 5)); reflexivity.
Qed.

Lemma record_ok_written p a i :
  is_bit p -> is_bit a -> record_ok (mkTrial i p a (p =? a)) = true.
Proof.
  intros [->| ->] [->| ->]; reflexivity.
Qed.

Lemma bit_of_bool (b : bool) : is_bit (if b then 1 else 0).
Proof. destruct b; [right|left]; reflexivity. Qed.

Lemma record_ok_actual t : record_ok t = true -> is_bit (actual t).
Proof.
  unfold record_ok, is_bit. rewrite !andb_true_iff.
  intros [[_ H] _]. apply orb_true_iff in H. rewrite !Z.eqb_eq in H. exact H.
Qed.

Lemma Replayed_records_ok sd h :
  Replayed sd h -> Forall (fun t => record_ok t = true) h.
Proof.
  induction 1 as [|h t _ IH _ Hok]; [constructor|].
  apply Forall_app. split; [exact IH|]. constructor; [exact Hok|constructor].
Qed.

Lemma Replayed_bits sd h : Replayed sd h -> bits_history h.
Proof.
  intros H. eapply Forall_impl; [|exact (Replayed_records_ok sd h H)].
  intros t. apply record_ok_actual.
Qed.

(** One iteration keeps a replayed history replayed. *)
Lemma loop_body_replayed i s :
  printable i ->
  Replayed (seed (qc s)) (history (qc s)) ->
  exists s',
    loop_body i s = Ok s' /\
    seed (qc s') = seed (qc s) /\
    Replayed (seed (qc s')) (history (qc s')) /\
    map flip (history (qc s')) = map flip (history (qc s)) ++ [i] /\
    consumed (rng s') = S (consumed (rng s)) /\
    entropy (rng s') = entropy (rng s).
Proof.
  intros Hi HR. pose proof (Replayed_bits _ _ HR) as Hb.
  destruct (loop_body_eq i s Hi Hb) as (acc & _ & E). cbv zeta in E.
  eexists. split; [exact E|]. cbn [qc rng append seed history consumed entropy].
  split; [reflexivity|]. split; [|split; [|split; reflexivity]].
  - apply Replayed_snoc; [exact HR| |].
    + cbn [flip prediction].
      replace {| seed := seed (qc s); history := history (qc s) |} with (qc s)
        by (destruct (qc s); reflexivity).
      apply biphoton_cascade_prediction_eq; [exact Hi|apply bits_window; exact Hb].
    + apply record_ok_written; apply bit_of_bool.
  - rewrite map_app. reflexivity.
Qed.

Lemma for_each_replayed l : forall s,
  Forall printable l ->
  Replayed (seed (qc s)) (history (qc s)) ->
  exists s',
    for_each loop_body l s = Ok s' /\
    seed (qc s') = seed (qc s) /\
    Replayed (seed (qc s')) (history (qc s')) /\
    map flip (history (qc s')) = map flip (history (qc s)) ++ l /\
    consumed (rng s') = (consumed (rng s) + List.length l)%nat.
Proof.
  induction l as [|i l IH]; intros s Hl HR; cbn [for_each].
  - exists s. rewrite app_nil_r, Nat.add_0_r. repeat split. exact HR.
  - inversion Hl as [|? ? Hi Hl']; subst.
    destruct (loop_body_replayed i s Hi HR) as (s1 & E & Hs & HR1 & Hf & Hc & _).
    rewrite E. cbn [bind].
    destruct (IH s1 Hl' HR1) as (s' & E' & Hs' & HR' & Hf' & Hc').
    exists s'. split; [exact E'|]. split; [congruence|]. split; [exact HR'|].
    rewrite Hf', Hf, Hc', Hc, <- app_assoc. cbn [List.length app]. split; [reflexivity|lia].
Qed.

(** X5: trials run one after the other from a fresh engine, for any seed,
    any random source and any list of trial indices of at most 4300
    decimal digits, never raise; they write one record per index, in
    order, consume one draw per index, and leave a history in which
    every record holds two bits, the flag of their equality and the
    prediction made from the records before it. *)
Theorem trials_write_a_replayed_history :
  forall (sd : string) (l : list Z) (rng0 : RandomSource),
    Forall printable l ->
  exists s' : LoopState,
    for_each loop_body l (mkLoopState (init sd) rng0 []) = Ok s' /\
    seed (qc s') = sd /\
    Replayed sd (history (qc s')) /\
    Forall (fun t => record_ok t = true) (history (qc s')) /\
    map flip (history (qc s')) = l /\
    consumed (rng s') = (consumed rng0 + List.length l)%nat.
Proof.
  intros sd l rng0 Hl.
  destruct (for_each_replayed l (mkLoopState (init sd) rng0 []) Hl)
    as (s' & E & Hs & HR & Hf & Hc).
  { cbn. constructor. }
  cbn [qc rng init seed history map app consumed] in *.
  exists s'. rewrite Hs in HR. repeat split; try assumption.
  apply (Replayed_records_ok sd). exact HR.
Qed.

Lemma trials_write_a_replayed_history_witness :
  exists s' : LoopState,
    for_each loop_body [7; -3; 7] (mkLoopState (init default_seed) alternating [])
    = Ok s' /\
    seed (qc s') = default_seed /\
    Replayed default_seed (history (qc s')) /\
    Forall (fun t => record_ok t = true) (history (qc s')) /\
    map flip (history (qc s')) = [7; -3; 7] /\
    consumed (rng s') = (consumed alternating + 3)%nat.
Proof.
  apply trials_write_a_replayed_history.
  repeat constructor; apply small_printable; cbn; lia.
Defined.

Lemma record_ok_correct t :
  record_ok t = true -> correct t = (prediction t =? actual t).
Proof.
  unfold record_ok. intros H.
  apply andb_prop in H. destruct H as [_ H]. apply eqb_prop. exact H.
Qed.

Lemma Ok_inj {A : Type} (a b : A) : Ok a = Ok b -> a = b.
Proof. intros H. injection H. auto. Qed.

(** X6: a replayed history is fixed by the seed, the trial indices and
    the outcomes: two histories that the engine can have written from
    the same seed, with the same indices and the same outcomes, are the
    same history, predictions and flags included. *)
Theorem replayed_history_unique :
  forall (sd : string) (h1 h2 : list Trial),
    Replayed sd h1 -> Replayed sd h2 ->
    map flip h1 = map flip h2 ->
    map actual h1 = map actual h2 ->
    h1 = h2.
Proof.
  intros sd h1 h2 HR1. revert h2.
  induction HR1 as [|h t HR IH Hp Hok]; intros h2 HR2 Hf Ha.
  - destruct h2; [reflexivity|discriminate Hf].
  - destruct HR2 as [|h' t' HR' Hp' Hok'].
    + destruct h; discriminate Hf.
    + rewrite !map_app in Hf, Ha. cbn [map] in Hf, Ha.
      apply app_inj_tail in Hf. destruct Hf as [Hf Hft].
      apply app_inj_tail in Ha. destruct Ha as [Ha Hat].
      assert (h = h') by (apply IH; assumption). subst h'.
      rewrite <- Hft, Hp in Hp'. apply Ok_inj in Hp'.
      apply record_ok_correct in Hok, Hok'.
      destruct t as [f p a c], t' as [f' p' a' c'].
      cbn [flip prediction actual correct] in *. subst. reflexivity.
Qed.

Lemma replayed_history_unique_witness :
  Replayed default_seed [mkTrial 1 1 1 true] /\
  [mkTrial 1 1 1 true] = [mkTrial 1 1 1 true].
Proof.
  assert (HR : Replayed default_seed [mkTrial 1 1 1 true]).
  { apply (Replayed_snoc default_seed [] (mkTrial 1 1 1 true)).
    - constructor.
    - vm_compute. reflexivity.
    - reflexivity. }
  split; [exact HR|].
  exact (replayed_history_unique default_seed _ _ HR HR eq_refl eq_refl).
Defined.

Lemma count_correct_agreements h :
  Forall (fun t => record_ok t = true) h -> count_correct h = agreements h.
Proof.
  intros H. unfold count_correct, agreements. do 2 f_equal.
  induction H as [|t h Ht _ IH]; cbn [filter]; [reflexivity|].
  rewrite (record_ok_correct t Ht), IH. reflexivity.
Qed.

(** X7: after at least one trial run from a fresh engine, on indices of
    at most 4300 decimal digits, the accuracy is the percentage of the
    records whose prediction equals the outcome: the [correct] flags
    that [get_accuracy] counts are those agreements. *)
Theorem accuracy_counts_agreements :
  forall (sd : string) (i : Z) (l : list Z) (rng0 : RandomSource),
    Forall printable (i :: l) ->
  exists s' : LoopState,
    for_each loop_body (i :: l) (mkLoopState (init sd) rng0 []) = Ok s' /\
    get_accuracy (qc s')
    = accuracy_of (agreements (history (qc s'))) (Z.of_nat (List.length (i :: l))).
Proof.
  intros sd i l rng0 Hl.
  destruct (for_each_replayed (i :: l) (mkLoopState (init sd) rng0 []) Hl)
    as (s' & E & _ & HR & Hf & _).
  { cbn. constructor. }
  pose proof (Replayed_records_ok _ _ HR) as Hok.
  cbn [qc init history map app] in Hf.
  exists s'. split; [exact E|].
  assert (Hlen : List.length (history (qc s')) = List.length (i :: l)).
  { rewrite <- Hf. symmetry. apply length_map. }
  rewrite get_accuracy_count.
  - rewrite (count_correct_agreements _ Hok), Hlen. reflexivity.
  - intros Hnil. rewrite Hnil in Hlen. discriminate Hlen.
Qed.

Lemma accuracy_counts_agreements_witness :
  exists s' : LoopState,
    for_each loop_body [1; 2; 3] (mkLoopState (init default_seed) alternating [])
    = Ok s' /\
    get_accuracy (qc s')
    = accuracy_of (agreements (history (qc s'))) (Z.of_nat (List.length [1; 2; 3])).
Proof.
  apply accuracy_counts_agreements.
  repeat constructor; apply small_printable; cbn; lia.
Defined.

(** ** The progress lines *)

Lemma line_reports_append sd h t ln :
  line_reports sd h ln -> line_reports sd (h ++ [t]) ln.
Proof.
  intros (before & after & t0 & Eh & H). exists before, (after ++ [t]), t0.
  split; [|exact H]. rewrite Eh, <- app_assoc. reflexivity.
Qed.

Lemma for_each_printed l : forall s,
  Forall printable l ->
  bits_history (history (qc s)) ->
  Forall (line_reports (seed (qc s)) (history (qc s))) (printed s) ->
  exists s',
    for_each loop_body l s = Ok s' /\
    seed (qc s') = seed (qc s) /\
    map line_trial (printed s') = map line_trial (printed s) ++ filter progress_due l /\
    Forall (line_reports (seed (qc s')) (history (qc s'))) (printed s').
Proof.
  induction l as [|i l IH]; intros s Hl Hb Hinv; cbn [for_each filter].
  - exists s. rewrite app_nil_r. repeat split. exact Hinv.
  - inversion Hl as [|? ? Hi Hl']; subst.
    destruct (loop_body_eq i s Hi Hb) as (acc & Eacc & E). cbv zeta in E, Eacc.
    rewrite E. cbn [bind].
    match type of E with _ = Ok ?st => set (s1 := st) in * end.
    assert (Hb1 : bits_history (history (qc s1))).
    { subst s1. cbn [qc append history].
      apply bits_history_append; [exact Hb|]. cbn [actual]. apply bit_of_bool. }
    assert (Hinv1 : Forall (line_reports (seed (qc s1)) (history (qc s1))) (printed s1)).
    { subst s1. cbn [qc printed append seed history].
      assert (Hold : Forall (line_reports (seed (qc s)) (history (qc s) ++
                [mkTrial i
                   (if digest_mod_100 (seed (qc s)) i (history (qc s)) <? 85 then 1 else 0)
                   (if (entropy (rng s) (consumed (rng s)) <? 0.5)%float then 1 else 0)
                   ((if digest_mod_100 (seed (qc s)) i (history (qc s)) <? 85 then 1 else 0)
                    =? (if (entropy (rng s) (consumed (rng s)) <? 0.5)%float then 1 else 0))]))
                (printed s)).
      { eapply Forall_impl; [|exact Hinv]. intros ln. apply line_reports_append. }
      destruct (progress_due i); [|exact Hold].
      apply Forall_app. split; [exact Hold|]. constructor; [|constructor].
      eexists (history (qc s)), [], _. split; [reflexivity|].
      cbn [line_trial line_correct line_prediction_heads line_actual_heads
           line_accuracy flip correct prediction actual].
      repeat split. exact Eacc. }
    destruct (IH s1 Hl' Hb1 Hinv1) as (s' & E' & Hs' & Hp' & Hinv').
    exists s'. split; [exact E'|]. split; [rewrite Hs'; reflexivity|].
    split; [|exact Hinv'].
    rewrite Hp'. subst s1. cbn [printed].
    destruct (progress_due i).
    + rewrite map_app, <- app_assoc. reflexivity.
    + reflexivity.
Qed.

(** X8: whatever the outcomes, the driver prints exactly 15 progress
    lines, for the trials 1 to 5 and every tenth trial up to 100, and
    each line reports the record of its trial and the accuracy of the
    history as it was just after that trial. *)
Theorem run_quantum_poc_progress_lines :
  forall rng0 : RandomSource,
  exists r : Report,
    run_quantum_poc rng0 = Ok r /\
    map line_trial (printed (final_state r))
    = [1; 2; 3; 4; 5; 10; 20; 30; 40; 50; 60; 70; 80; 90; 100] /\
    Forall (line_reports default_seed (history (qc (final_state r))))
           (printed (final_state r)).
Proof.
  intros rng0.
  destruct (run_quantum_poc_eq rng0) as (s & a & Eloop & _ & _ & _ & E).
  destruct (for_each_printed (range 1 101) (mkLoopState (init default_seed) rng0 []))
    as (s' & E' & Hs & Hp & Hinv).
  { apply range_printable. }
  { constructor. }
  { constructor. }
  rewrite Eloop in E'. apply Ok_inj in E'. subst s'.
  eexists. split; [exact E|]. cbn [final_state].
  cbn [qc init seed printed map app] in Hs, Hp.
  rewrite Hs in Hinv. split; [exact Hp|exact Hinv].
Qed.

(** ** Runs with the same heads and tails *)

Lemma for_each_same_flips l : forall s1 s2 s1' s2',
  Forall printable l ->
  bits_history (history (qc s1)) ->
  qc s1 = qc s2 -> printed s1 = printed s2 ->
  same_flips (rng s1) (rng s2) (List.length l) ->
  for_each loop_body l s1 = Ok s1' ->
  for_each loop_body l s2 = Ok s2' ->
  qc s1' = qc s2' /\ printed s1' = printed s2'.
Proof.
  induction l as [|i l IH]; intros s1 s2 s1' s2' Hl Hb Hq Hp Hsame E1 E2;
    cbn [for_each] in *.
  - apply Ok_inj in E1, E2. subst. auto.
  - inversion Hl as [|? ? Hi Hl']; subst.
    assert (Hb2 : bits_history (history (qc s2))) by (rewrite <- Hq; exact Hb).
    destruct (loop_body_eq i s1 Hi Hb) as (acc1 & Eacc1 & B1).
    destruct (loop_body_eq i s2 Hi Hb2) as (acc2 & Eacc2 & B2).
    cbv zeta in *.
    assert (H0 : (entropy (rng s1) (consumed (rng s1)) <? 0.5)%float
                 = (entropy (rng s2) (consumed (rng s2)) <? 0.5)%float).
    { specialize (Hsame 0%nat). rewrite !Nat.add_0_r in Hsame.
      apply Hsame. cbn [List.length]. lia. }
    rewrite <- Hq, <- H0 in B2, Eacc2. rewrite <- Hp in B2.
    rewrite Eacc1 in Eacc2. apply Ok_inj in Eacc2. subst acc2.
    rewrite B1 in E1. rewrite B2 in E2. cbn [bind] in E1, E2.
    eapply IH; [exact Hl'| | | | |exact E1|exact E2]; cbn [qc printed rng];
      try reflexivity.
    + cbn [append history]. apply bits_history_append; [exact Hb|].
      cbn [actual]. apply bit_of_bool.
    + intros j Hj. cbn [entropy consumed].
      specialize (Hsame (S j)). rewrite !Nat.add_succ_r in Hsame.
      apply Hsame. cbn [List.length]. lia.
Qed.

(** X9: a run of the driver depends on the random source only through
    the heads and tails of its next 100 draws: two sources that agree on
    them give the same history, the same progress lines and the same
    figures in the report. *)
Theorem run_quantum_poc_depends_on_flips_only :
  forall rng1 rng2 : RandomSource,
    same_flips rng1 rng2 100 ->
    exists r1 r2 : Report,
      run_quantum_poc rng1 = Ok r1 /\
      run_quantum_poc rng2 = Ok r2 /\
      qc (final_state r1) = qc (final_state r2) /\
      printed (final_state r1) = printed (final_state r2) /\
      final_acc r1 = final_acc r2 /\
      shift r1 = shift r2 /\
      outcome r1 = outcome r2 /\
      z_score r1 = z_score r2 /\
      level r1 = level r2.
Proof.
  intros rng1 rng2 Hsame.
  destruct (run_quantum_poc_eq rng1) as (s1 & a1 & L1 & _ & _ & A1 & E1).
  destruct (run_quantum_poc_eq rng2) as (s2 & a2 & L2 & _ & _ & A2 & E2).
  destruct (for_each_same_flips (range 1 101)
              (mkLoopState (init default_seed) rng1 [])
              (mkLoopState (init default_seed) rng2 []) s1 s2
              range_printable (Forall_nil _)
              eq_refl eq_refl Hsame L1 L2) as [Hq Hp].
  rewrite Hq, A2 in A1. apply Ok_inj in A1. subst a2.
  do 2 eexists. split; [exact E1|]. split; [exact E2|].
  cbn [final_state final_acc shift outcome z_score level]. repeat split; assumption.
Qed.

Lemma run_quantum_poc_depends_on_flips_only_witness :
  exists r1 r2 : Report,
    run_quantum_poc alternating = Ok r1 /\
    run_quantum_poc alternating' = Ok r2 /\
    qc (final_state r1) = qc (final_state r2) /\
    printed (final_state r1) = printed (final_state r2) /\
    final_acc r1 = final_acc r2 /\
    shift r1 = shift r2 /\
    outcome r1 = outcome r2 /\
    z_score r1 = z_score r2 /\
    level r1 = level r2.
Proof.
  apply run_quantum_poc_depends_on_flips_only.
  intros j _. cbn [alternating alternating' entropy consumed].
  rewrite Nat.add_0_l.
  replace (Nat.even (7 + j)) with (negb (Nat.even j)).
  - destruct (Nat.even j); reflexivity.
  - change (7 + j)%nat with (S (S (S (S (S (S (S j))))))).
    rewrite !Nat.even_succ_succ, Nat.even_succ, <- Nat.negb_even. reflexivity.
Defined.

(** ** The report as a function of the number of correct trials *)

Lemma report_table : forallb report_check (range 0 101) = true.
Proof. vm_compute. reflexivity. Qed.

Lemma report_check_ok k : 0 <= k <= 100 -> report_check k = true.
Proof.
  intros H. pose proof report_table as T. rewrite forallb_forall in T.
  apply T, In_range. lia.
Qed.

Lemma verdict_eqb_eq a b : verdict_eqb a b = true -> a = b.
Proof. destruct a, b; intros H; try reflexivity; discriminate H. Qed.

Lemma significance_eqb_eq a b : significance_eqb a b = true -> a = b.
Proof. destruct a, b; intros H; try reflexivity; discriminate H. Qed.

Lemma report_check_spec k a :
  report_check k = true -> accuracy_of k 100 = Ok a ->
  classify_accuracy a = verdict_of_count k /\
  classify_z (z_of_accuracy a) = level_of_count k /\
  ((-50 <=? a - 50)%float = true /\ (a - 50 <=? 50)%float = true) /\
  ((-10 <=? z_of_accuracy a)%float = true /\ (z_of_accuracy a <=? 10)%float = true).
Proof.
  unfold report_check. intros H E. rewrite E in H.
  rewrite !andb_true_iff in H.
  destruct H as [[[Hv Hl] Hs] Hz].
  split; [apply verdict_eqb_eq; exact Hv|].
  split; [apply significance_eqb_eq; exact Hl|].
  split; assumption.
Qed.

(** The report of a run, with the number [k] of its correct trials. *)
Lemma run_quantum_poc_by_count rng0 :
  exists (r : Report) (k : Z),
    run_quantum_poc rng0 = Ok r /\
    k = count_correct (history (qc (final_state r))) /\
    0 <= k <= 100 /\
    accuracy_of k 100 = Ok (final_acc r) /\
    shift r = (final_acc r - 50)%float /\
    outcome r = classify_accuracy (final_acc r) /\
    z_score r = z_of_accuracy (final_acc r) /\
    level r = classify_z (z_of_accuracy (final_acc r)).
Proof.
  destruct (run_quantum_poc_eq rng0) as (s & a & _ & Hflip & _ & Eacc & E).
  assert (Hlen : List.length (history (qc s)) = 100%nat).
  { rewrite <- (length_map flip), Hflip. reflexivity. }
  assert (Hne : history (qc s) <> []).
  { intros H. rewrite H in Hlen. discriminate. }
  rewrite (get_accuracy_count _ Hne), Hlen in Eacc.
  pose proof (count_correct_bounds (history (qc s))) as Hk. rewrite Hlen in Hk.
  eexists. exists (count_correct (history (qc s))). split; [exact E|].
  cbn [final_state final_acc shift outcome z_score level].
  repeat split; try assumption; lia.
Qed.

(** X10: the verdict that the driver prints is fixed by the number of
    correct trials, with the thresholds 85, 70, 60 and 55: rounding in
    the accuracy moves none of them. *)
Theorem run_quantum_poc_verdict :
  forall rng0 : RandomSource,
  exists r : Report,
    run_quantum_poc rng0 = Ok r /\
    outcome r = verdict_of_count (count_correct (history (qc (final_state r)))).
Proof.
  intros rng0.
  destruct (run_quantum_poc_by_count rng0) as (r & k & E & -> & Hk & Ea & _ & Ho & _).
  exists r. split; [exact E|]. rewrite Ho.
  apply (report_check_spec _ _ (report_check_ok _ Hk) Ea).
Qed.

(** X11: the significance level that the driver prints is fixed by the
    distance of the number of correct trials from 50: highly
    significant from 13, significant from 10, marginally significant at
    9, not significant below. *)
Theorem run_quantum_poc_level :
  forall rng0 : RandomSource,
  exists r : Report,
    run_quantum_poc rng0 = Ok r /\
    level r = level_of_count (count_correct (history (qc (final_state r)))).
Proof.
  intros rng0.
  destruct (run_quantum_poc_by_count rng0)
    as (r & k & E & -> & Hk & Ea & _ & _ & _ & Hl).
  exists r. split; [exact E|]. rewrite Hl.
  apply (report_check_spec _ _ (report_check_ok _ Hk) Ea).
Qed.

(** X12: the driver reports that no effect was detected and, in the same
    run, that the result is highly significant, exactly when at most 37
    of the 100 trials are correct. *)
Theorem run_quantum_poc_no_effect_yet_significant :
  forall rng0 : RandomSource,
  exists r : Report,
    run_quantum_poc rng0 = Ok r /\
    (outcome r = NoEffect /\ level r = HighlySignificant
     <-> count_correct (history (qc (final_state r))) <= 37).
Proof.
  intros rng0.
  destruct (run_quantum_poc_by_count rng0)
    as (r & k & E & Ek & Hk & Ea & _ & Ho & _ & Hl).
  exists r. split; [exact E|]. rewrite <- Ek, Ho, Hl.
  destruct (report_check_spec _ _ (report_check_ok _ Hk) Ea) as (-> & -> & _).
  assert (Hv : verdict_of_count k = NoEffect <-> k < 55).
  { unfold verdict_of_count.
    destruct (Z.leb_spec 85 k), (Z.leb_spec 70 k), (Z.leb_spec 60 k), (Z.leb_spec 55 k);
      split; intros H'; try discriminate H'; try reflexivity; lia. }
  assert (Hl' : level_of_count k = HighlySignificant <-> 13 <= Z.abs (k - 50)).
  { unfold level_of_count. cbv zeta.
    destruct (Z.leb_spec 13 (Z.abs (k - 50))), (Z.leb_spec 10 (Z.abs (k - 50))),
      (Z.leb_spec 9 (Z.abs (k - 50)));
      split; intros H'; try discriminate H'; try reflexivity; lia. }
  rewrite Hv, Hl'. lia.
Qed.

(** X13: in every run the reported shift lies between -50 and 50
    percentage points and the z-score between -10 and 10. *)
Theorem run_quantum_poc_ranges :
  forall rng0 : RandomSource,
  exists r : Report,
    run_quantum_poc rng0 = Ok r /\
    (-50 <=? shift r)%float = true /\ (shift r <=? 50)%float = true /\
    (-10 <=? z_score r)%float = true /\ (z_score r <=? 10)%float = true.
Proof.
  intros rng0.
  destruct (run_quantum_poc_by_count rng0)
    as (r & k & E & _ & Hk & Ea & Hs & _ & Hz & _).
  exists r. split; [exact E|]. rewrite Hs, Hz.
  destruct (report_check_spec _ _ (report_check_ok _ Hk) Ea) as (_ & _ & [? ?] & [? ?]).
  auto.
Qed.

(** With every outcome tails, 14 trials are correct: the run reports no
    effect and a highly significant z-score. *)
Example always_tails_run :
  exists r,
    run_quantum_poc always_tails = Ok r /\
    count_correct (history (qc (final_state r))) = 14 /\
    outcome r = NoEffect /\ level r = HighlySignificant /\
    shift r = (-36)%float.
Proof. eexists. vm_compute. repeat split. Qed.

(** ** Half of the records correct *)

(** An [int] divided by its double is exactly [0.5]. *)
Lemma int_truediv_half c : 0 < c -> int_truediv c (2 * c) = Ok 0.5%float.
Proof.
  intros Hc. unfold int_truediv.
  replace (2 * c =? 0) with false by (symmetry; apply Z.eqb_neq; lia).
  destruct c as [|p|p]; try lia.
  change (2 * Zpos p) with (Zpos p~0).
  cbn [SF_of_int SFdiv xorb]. rewrite SFdiv_core_int by lia. cbv zeta.
  replace (Zdigits2 (Zpos p) - Zdigits2 (Zpos p~0)) with (-1)
    by (cbn [Zdigits2 digits2_pos]; lia).
  change (Z.min (fexp prec emax (-1)) 0) with (-54).
  change (- -54) with 54.
  replace (Zpos p * 2 ^ 54) with (2 ^ 53 * Zpos p~0) by lia.
  rewrite Z.div_mul, Z.mod_mul, new_location_zero by lia.
  reflexivity.
Qed.

(** X15: when exactly half of the records are correct, [get_accuracy]
    returns exactly 50.0, the value it also returns for the empty
    history. *)
Theorem get_accuracy_half_correct :
  forall self : QuantumCollapse,
    history self <> [] ->
    2 * count_correct (history self) = Z.of_nat (List.length (history self)) ->
    get_accuracy self = Ok 50%float /\
    get_accuracy (init (seed self)) = Ok 50%float.
Proof.
  intros self Hne Hhalf. split; [|reflexivity].
  rewrite get_accuracy_count by exact Hne. rewrite <- Hhalf.
  unfold accuracy_of. rewrite int_truediv_half.
  - reflexivity.
  - destruct (history self); [congruence|cbn [List.length] in Hhalf; lia].
Qed.

Lemma get_accuracy_half_correct_witness :
  get_accuracy
    {| seed := default_seed;
       history := [mkTrial 1 1 1 true; mkTrial 2 1 0 false] |} = Ok 50%float /\
  get_accuracy (init default_seed) = Ok 50%float.
Proof.
  apply (get_accuracy_half_correct
           {| seed := default_seed;
              history := [mkTrial 1 1 1 true; mkTrial 2 1 0 false] |}).
  - discriminate.
  - reflexivity.
Defined.

(** ** Texts that coincide *)

Lemma join_cons a l : join (a :: l) = (a ++ join l)%string.
Proof.
  unfold join. cbn [String.concat]. destruct l as [|b l].
  - cbn [String.concat]. 
    induction a as [|c a IH]; cbn [String.append]; [reflexivity|].
    f_equal. exact IH.
  - reflexivity.
Qed.

(** X14: the hashed text has no separators, so different states can be
    hashed as the same text: trial 1 after an outcome 1 followed by at
    most nine records gets the text, and so the prediction, of trial 11
    after those records alone. *)
Theorem prediction_collides :
  forall (sd : string) (t : Trial) (h : list Trial),
    actual t = 1 ->
    (List.length h <= 9)%nat ->
    quantum_state {| seed := sd; history := t :: h |} 1
    = quantum_state {| seed := sd; history := h |} 11 /\
    biphoton_cascade_prediction {| seed := sd; history := t :: h |} 1
    = biphoton_cascade_prediction {| seed := sd; history := h |} 11.
Proof.
  intros sd t h Ht Hlen.
  assert (E : quantum_state {| seed := sd; history := t :: h |} 1
              = quantum_state {| seed := sd; history := h |} 11).
  { unfold quantum_state, history_str. cbn [seed history].
    rewrite !slice_from_last, !last_at_most_short by (cbn [List.length]; lia).
    cbn [map_result]. rewrite Ht.
    rewrite !str_int_ok by (apply small_printable; cbn; lia). cbn [bind].
    destruct (map_result (fun h0 => str_int (actual h0)) h) as [parts|e];
      cbn [bind]; [|reflexivity].
    rewrite join_cons. reflexivity. }
  split; [exact E|].
  unfold biphoton_cascade_prediction, quantum_num. rewrite E. reflexivity.
Qed.

Lemma prediction_collides_witness :
  quantum_state {| seed := default_seed;
                   history := [mkTrial 0 1 1 true; mkTrial 1 0 0 true] |} 1
  = quantum_state {| seed := default_seed; history := [mkTrial 1 0 0 true] |} 11 /\
  biphoton_cascade_prediction
    {| seed := default_seed;
       history := [mkTrial 0 1 1 true; mkTrial 1 0 0 true] |} 1
  = biphoton_cascade_prediction
      {| seed := default_seed; history := [mkTrial 1 0 0 true] |} 11.
Proof.
  apply prediction_collides; [reflexivity|cbn; lia].
Defined.

(** ** Integers that [str] refuses *)


(** * The program on concrete inputs *)

Example first_prediction :
  quantum_state (init default_seed) 1 = Ok "ejhollenhub20261"%string /\
  quantum_num (init default_seed) 1 = Ok 0 /\
  biphoton_cascade_prediction (init default_seed) 1 = Ok 1.
Proof. vm_compute. repeat split. Qed.

Example first_trial :
  run_trial (init default_seed) 1 alternating
  = Ok ((1, 1, true),
        {| seed := default_seed; history := [mkTrial 1 1 1 true] |},
        {| entropy := entropy alternating; consumed := 1 |}).
Proof. vm_compute. reflexivity. Qed.

(** Only the last ten outcomes enter the hash. *)
Example window_of_ten :
  history_str
    {| seed := default_seed;
       history := map (fun k => mkTrial k 1 (k mod 2) (k mod 2 =? 1)) (range 1 14) |}
  = Ok "0101010101"%string.
Proof. vm_compute. reflexivity. Qed.

(** The quotient and the product are rounded: 7 correct records out of
    100 give 7.000000000000001 and not 7.0. *)
Example accuracy_7_of_100 :
  get_accuracy
    {| seed := default_seed;
       history := map (fun k => mkTrial k 1 1 (k <=? 7)) (range 1 101) |}
  = Ok 0x1.c000000000001p+2%float.
Proof. vm_compute. reflexivity. Qed.

(** [int / int] agrees with the division of binary64 on operands that
    convert exactly, and rounds the exact quotient once on larger ones. *)
Example int_truediv_examples :
  int_truediv 7 100 = Ok (7 / 100)%float /\
  int_truediv 2 3 = Ok (2 / 3)%float /\
  int_truediv 1 (-3) = Ok (1 / -3)%float /\
  int_truediv 0 (-3) = Ok (-0)%float /\
  int_truediv (2 ^ 53 + 1) 1 = Ok 9007199254740992%float /\
  int_truediv (10 ^ 400) (10 ^ 399 + 7) = Ok 10%float /\
  int_truediv 1 (10 ^ 400) = Ok 0%float /\
  int_truediv (10 ^ 400) 1 = Raise OverflowError /\
  int_truediv 1 0 = Raise ZeroDivisionError.
Proof. vm_compute. repeat split. Qed.

Example accuracy_2_of_3 :
  get_accuracy
    {| seed := default_seed;
       history := [mkTrial 1 1 1 true; mkTrial 2 1 0 false; mkTrial 3 1 1 true] |}
  = Ok 0x1.0aaaaaaaaaaaap+6%float.
Proof. vm_compute. reflexivity. Qed.

Example alternating_run :
  exists r,
    run_quantum_poc alternating = Ok r /\
    final_acc r = 50%float /\ shift r = 0%float /\ outcome r = NoEffect /\
    n r = 100 /\ z_score r = 0%float /\ level r = NotSignificant /\
    map line_trial (printed (final_state r))
    = [1; 2; 3; 4; 5; 10; 20; 30; 40; 50; 60; 70; 80; 90; 100].
Proof. eexists. vm_compute. repeat split. Qed.
